(** * cpmadd88 — writing a data file into a CP/M disk image in .d88 format

    A shallow embedding of [cpmadd88.c] (Ver. 0.1.3) and the properties of
    its address translation, directory scan and write loop.

    Conventions of the embedding.
    - A C [int] is a [Z]; where a function receives an arbitrary [int] the
      32-bit two's-complement wrap-around is written out ([int_wrap]).  The
      counters of [write_in] are bounded by the capacity test of the loop
      (fewer than 2432 records), so they are plain [Z] there.
    - A C [char] is a [byte].  Whether plain [char] is signed is left to the
      implementation by the C standard; the promotion of a [char] to [int]
      therefore takes the signedness as a parameter ([char_to_int]).
    - The disk image is the contents of a complete .d88 file, a total map
      from file offsets to bytes: every [fread] of the program finds the
      bytes it asks for.  The source file is the list of its bytes.
    - The global buffers [FCB_buff], [record_buff], [name], [extension] and
      the counters are threaded through the functions explicitly. *)

From Stdlib Require Import String Ascii ZArith List Lia Bool.
From Stdlib Require Import Strings.Byte.
Import ListNotations.
Local Open Scope Z_scope.

(** ** C integers and characters *)

Module C.

Definition INT_MAX : Z := 2147483647.
Definition INT_MIN : Z := -2147483648.

(** The value an [int] computation is left with after overflow on a
    two's-complement machine. *)
Definition int_wrap (z : Z) : Z := (z + 2147483648) mod 4294967296 - 2147483648.

Inductive char_signedness : Set := SignedChar | UnsignedChar.

(** The bit pattern of a [char], 0..255. *)
Definition byte_val (b : byte) : Z := Z.of_N (Byte.to_N b).

(** Integer promotion of a plain [char]. *)
Definition char_to_int (ck : char_signedness) (b : byte) : Z :=
  match ck with
  | UnsignedChar => byte_val b
  | SignedChar => if 128 <=? byte_val b then byte_val b - 256 else byte_val b
  end.

(** Storing an [int] into a [char] keeps the low eight bits. *)
Definition int_to_char (z : Z) : byte :=
  match Byte.of_N (Z.to_N (z mod 256)) with
  | Some b => b
  | None => x00
  end.

(** [toupper] in the "C" locale (the program never calls [setlocale]):
    'a'..'z' go to 'A'..'Z', every other byte is returned as it is. *)
Definition toupper (c : byte) : byte :=
  if (97 <=? byte_val c) && (byte_val c <=? 122)
  then int_to_char (byte_val c - 32)
  else c.

(** What a call can do: return, run into undefined behaviour, or (for the
    model of a loop only) exhaust the fuel it was given. *)
Inductive behaviour (A : Type) : Type :=
| Returns (a : A)
| UndefinedBehaviour
| OutOfFuel.

Arguments Returns {A} a.
Arguments UndefinedBehaviour {A}.
Arguments OutOfFuel {A}.

(** Arrays of [char]. *)
Definition array_get (l : list byte) (i : Z) : byte := nth (Z.to_nat i) l x00.

Fixpoint set_nth (n : nat) (v : byte) (l : list byte) : list byte :=
  match l, n with
  | [], _ => []
  | _ :: t, O => v :: t
  | x :: t, S n' => x :: set_nth n' v t
  end.

(** [l[i] = v].  Every index the program uses is inside its array. *)
Definition array_set (l : list byte) (i : Z) (v : byte) : list byte :=
  if (0 <=? i) && (i <? Z.of_nat (length l)) then set_nth (Z.to_nat i) v l else l.

(** The integers [lo], [lo+1], ..., [lo+n-1]: the values of a [for] index. *)
Definition Zrange (lo : Z) (n : nat) : list Z := map (fun k => lo + Z.of_nat k) (seq 0 n).

(** [strrchr(s, c)] as the index of the last occurrence, [None] for NULL. *)
Fixpoint strrchr (s : list byte) (c : byte) : option nat :=
  match s with
  | [] => None
  | x :: t =>
      match strrchr t c with
      | Some k => Some (S k)
      | None => if Byte.eqb x c then Some O else None
      end
  end.

Definition bytes_of_string (s : string) : list byte := list_byte_of_string s.

End C.

Import C.

(** ** Geometry and address translation *)

Definition DATA_BLOCK_SIZE : Z := 2048.
Definition BPS : Z := 256.
Definition SPT : Z := 32.
Definition TRACKS : Z := 40.
Definition RPD : Z := 16.

Definition num_of_FCBs : Z := Z.quot (DATA_BLOCK_SIZE * 2) 32.
Definition num_of_data_blocks : Z := Z.quot (BPS * SPT * (TRACKS - 2)) DATA_BLOCK_SIZE.

(** [return 43 * 16 + 16 + addr + 16 * (addr / 256);] *)
Definition convert_addr (addr : Z) : Z :=
  int_wrap (43 * 16 + 16 + addr + 16 * (Z.quot addr 256)).

Definition head_addr_of_data_block (block_number : Z) : Z :=
  int_wrap (BPS * SPT * 2 + DATA_BLOCK_SIZE * block_number).

Definition head_addr_of_FCB (FCB_number : Z) : Z :=
  int_wrap (head_addr_of_data_block 0 + 32 * FCB_number).

Definition head_addr_of_record (record_number : Z) : Z :=
  int_wrap (head_addr_of_data_block (Z.quot record_number RPD)
            + 128 * (Z.rem record_number RPD)).

(** ** File name *)

Definition space : byte := x20.
Definition dot : byte := x2e.

(** [for (i = 0; i < n; i++) dst[i] = toupper(src[i]);] *)
Fixpoint copy_toupper (n : nat) (src dst : list byte) : list byte :=
  match n, src, dst with
  | S n', c :: src', _ :: dst' => toupper c :: copy_toupper n' src' dst'
  | _, _, _ => dst
  end.

(** [separate_name]: the globals [name] and [extension] start as blanks.
    When the file name has no '.', [strrchr] returns NULL and
    [strlen(NULL + 1)] reads through an invalid pointer. *)
Definition separate_name (cpm_filename : list byte) : behaviour (list byte * list byte) :=
  match strrchr cpm_filename dot with
  | None => UndefinedBehaviour
  | Some p =>
      let ext := skipn (S p) cpm_filename in
      let len := Z.of_nat (length cpm_filename) - Z.of_nat (length ext) - 1 in
      let name := copy_toupper (Z.to_nat (if len <? 8 then len else 8))
                               cpm_filename (repeat space 8) in
      let len := Z.of_nat (length ext) in
      let extension := copy_toupper (Z.to_nat (if len <? 3 then len else 3))
                                    ext (repeat space 3) in
      Returns (name, extension)
  end.

(** ** The image file *)

Definition image : Type := Z -> byte.

(** [fseek(fp, off, SEEK_SET); fread(buf, 1, n, fp);] *)
Definition pread (f : image) (off : Z) (n : nat) : list byte :=
  map f (Zrange off n).

(** [fseek(fp, off, SEEK_SET); fwrite(buf, 1, n, fp);] *)
Definition pwrite (f : image) (off : Z) (n : Z) (buf : list byte) : image :=
  fun a =>
    if (off <=? a) && (a <? off + n)
    then array_get buf (a - off)
    else f a.

(** ** Directory scan *)

Definition is_name_ext (FCB_buff name extension : list byte) : bool :=
  forallb (fun i => Byte.eqb (array_get FCB_buff i) (array_get name (i - 1))) (Zrange 1 8)
  && forallb (fun i => Byte.eqb (array_get FCB_buff i) (array_get extension (i - 9))) (Zrange 9 3).

Record scan_state : Type := {
  same_name : Z;
  last_living_FCB_num : Z;
  last_living_block_num : Z
}.

(** The inner [for (j = 16; j < 32; j++)] of [same_name_check]. *)
Definition raise_block_num (ck : char_signedness) (FCB_buff : list byte) (m : Z) : Z :=
  fold_left (fun m j => if m <? char_to_int ck (array_get FCB_buff j)
                        then char_to_int ck (array_get FCB_buff j) else m)
            (Zrange 16 16) m.

(** One turn of the outer loop of [same_name_check]. *)
Definition scan_FCB (ck : char_signedness) (name extension : list byte) (fp : image)
           (s : scan_state) (i : Z) : scan_state :=
  let FCB_buff := pread fp (convert_addr (head_addr_of_FCB i)) 32 in
  if Byte.eqb (array_get FCB_buff 0) x00 then
    {| same_name := if is_name_ext FCB_buff name extension then 1 else same_name s;
       last_living_FCB_num := i;
       last_living_block_num := raise_block_num ck FCB_buff (last_living_block_num s) |}
  else s.

Definition scan_start : scan_state :=
  {| same_name := 0; last_living_FCB_num := -1; last_living_block_num := 1 |}.

Definition same_name_check (ck : char_signedness) (name extension : list byte) (fp : image)
  : scan_state :=
  fold_left (scan_FCB ck name extension fp) (Zrange 0 (Z.to_nat num_of_FCBs)) scan_start.

(** ** Buffers *)

Definition init_FCB_buf (name extension : list byte) : list byte :=
  let b := repeat x00 32 in
  let b := array_set b 0 x00 in
  let b := fold_left (fun b i => array_set b i (array_get name (i - 1))) (Zrange 1 8) b in
  let b := fold_left (fun b i => array_set b i (array_get extension (i - 9))) (Zrange 9 3) b in
  fold_left (fun b i => array_set b i x00) (Zrange 12 20) b.

Definition init_record_buf : list byte := repeat x1a 128.

(** ** Writing *)

Inductive io_event : Type :=
| SaveRecord (record_number : Z) (buf : list byte)
| SaveFCB (FCB_number : Z) (buf : list byte).

Definition save_FCB (fp : image) (FCB_number : Z) (FCB_buff : list byte) : image :=
  pwrite fp (convert_addr (head_addr_of_FCB FCB_number)) 32 FCB_buff.

Definition save_record (fp : image) (record_number : Z) (record_buff : list byte) : image :=
  pwrite fp (convert_addr (head_addr_of_record record_number)) 128 record_buff.

Definition exec_event (fp : image) (e : io_event) : image :=
  match e with
  | SaveRecord n buf => save_record fp n buf
  | SaveFCB n buf => save_FCB fp n buf
  end.

Record write_state : Type := {
  used_FCBs : Z;
  written_records : Z;
  FCB_buff : list byte;
  record_buff : list byte;
  wfp : image;
  journal : list io_event   (* the calls of save_record / save_FCB so far *)
}.

(** [fread(record_buff, 1, 128, rfp)]: the count, the buffer, the rest of
    the stream.  A short read leaves the tail of the buffer as it was. *)
Definition fread_record (record_buff rfp : list byte) : Z * list byte * list byte :=
  let got := firstn 128 rfp in
  (Z.of_nat (length got), got ++ skipn (length got) record_buff, skipn 128 rfp).

Definition set_record_buff (st : write_state) (buf : list byte) : write_state :=
  {| used_FCBs := used_FCBs st; written_records := written_records st;
     FCB_buff := FCB_buff st; record_buff := buf;
     wfp := wfp st; journal := journal st |}.

Definition capacity_exceeded (llf llb : Z) (st : write_state) : bool :=
  (num_of_FCBs <=? llf + used_FCBs st)
  || (RPD * num_of_data_blocks <=? RPD * (llb + 1) + written_records st).

(** The body of the [while] loop after the capacity test; [record_buff st]
    already holds the record just read. *)
Definition loop_body (name extension : list byte) (llf llb : Z) (st : write_state)
  : write_state :=
  let rn := RPD * (llb + 1) + written_records st in
  let wfp1 := save_record (wfp st) rn (record_buff st) in
  let j1 := journal st ++ [SaveRecord rn (record_buff st)] in
  let wr := written_records st + 1 in
  let fcb := array_set (FCB_buff st) 12 (int_to_char (used_FCBs st)) in
  let fcb := array_set fcb 15
               (int_to_char (if Z.rem wr 128 =? 0 then 128 else Z.rem wr 128)) in
  let written_blocks := Z.quot wr RPD + (if Z.rem wr RPD =? 0 then 0 else 1) in
  let offset := Z.rem (16 + written_blocks - 1) 16 in
  let fcb := array_set fcb (16 + offset) (int_to_char (llb + written_blocks)) in
  let used := if Z.rem wr 128 =? 0 then used_FCBs st + 1 else used_FCBs st in
  if wr =? BPS then
    {| used_FCBs := used; written_records := wr;
       FCB_buff := init_FCB_buf name extension;
       record_buff := init_record_buf;
       wfp := save_FCB wfp1 (llf + 1 + Z.rem used 2) fcb;
       journal := j1 ++ [SaveFCB (llf + 1 + Z.rem used 2) fcb] |}
  else
    {| used_FCBs := used; written_records := wr;
       FCB_buff := fcb;
       record_buff := init_record_buf;
       wfp := wfp1;
       journal := j1 |}.

Inductive message : Set :=
| SameNameExists      (* "A same name file exists. Cancel writing." *)
| NotEnoughCapacity   (* "Not enough capacity. The writing is incomplete." *)
| Done.               (* "Done." *)

(** The [while (fread(...))] loop.  [None] is the normal exit of the loop,
    [Some NotEnoughCapacity] the early [return]. *)
Fixpoint write_loop (fuel : nat) (name extension : list byte) (llf llb : Z)
         (st : write_state) (rfp : list byte) : behaviour (option message * write_state) :=
  match fuel with
  | O => OutOfFuel
  | S fuel' =>
      let '(count, buf, rfp') := fread_record (record_buff st) rfp in
      if count =? 0 then Returns (None, st)
      else
        let st1 := set_record_buff st buf in
        if capacity_exceeded llf llb st1 then Returns (Some NotEnoughCapacity, st1)
        else write_loop fuel' name extension llf llb
                        (loop_body name extension llf llb st1) rfp'
  end.

(** The state in which [write_in] enters the loop. *)
Definition start_state (name extension : list byte) (img : image) : write_state :=
  {| used_FCBs := 0; written_records := 0;
     FCB_buff := init_FCB_buf name extension;
     record_buff := init_record_buf;
     wfp := img; journal := [] |}.

Record run : Type := {
  printed : message;
  image_after : image;
  io : list io_event
}.

(** [write_in()], with the image, the host file name and the bytes of the
    host file as inputs. *)
Definition write_in (ck : char_signedness) (img : image) (cpm_filename src : list byte)
  : behaviour run :=
  match separate_name cpm_filename with
  | Returns (name, extension) =>
      let sc := same_name_check ck name extension img in
      if negb (same_name sc =? 0) then
        Returns {| printed := SameNameExists; image_after := img; io := [] |}
      else
        let llf := last_living_FCB_num sc in
        let llb := last_living_block_num sc in
        let st0 := start_state name extension img in
        match write_loop (S (length src)) name extension llf llb st0 src with
        | Returns (Some m, st) =>
            Returns {| printed := m; image_after := wfp st; io := journal st |}
        | Returns (None, st) =>
            let slot := llf + 1 + Z.rem (used_FCBs st) 2 in
            Returns {| printed := Done;
                       image_after := save_FCB (wfp st) slot (FCB_buff st);
                       io := journal st ++ [SaveFCB slot (FCB_buff st)] |}
        | UndefinedBehaviour => UndefinedBehaviour
        | OutOfFuel => OutOfFuel
        end
  | UndefinedBehaviour => UndefinedBehaviour
  | OutOfFuel => OutOfFuel
  end.

(** ** Directory entries (FCBs)

    Layout, from the header of the source:
<<
   addr    :  00 01 02 03 04 05 06 07 08 09 0A 0B 0C 0D 0E 0F
   xxxx    : |DR|n0|n1|n2|n3|n4|n5|n6|n7|e0|e1|e2|LE|00|00|NR|
   xxxx+16 : |a0|a1|a2|a3|a4|a5|a6|a7|a8|a9|aA|aB|aC|aD|aE|aF|
>> *)

Definition dir_slot (fp : image) (i : Z) : list byte :=
  pread fp (convert_addr (head_addr_of_FCB i)) 32.

Definition is_live (fcb : list byte) : bool := Byte.eqb (array_get fcb 0) x00.
Definition entry_name (fcb : list byte) : list byte := map (array_get fcb) (Zrange 1 8).
Definition entry_extension (fcb : list byte) : list byte := map (array_get fcb) (Zrange 9 3).
Definition extent_index (fcb : list byte) : byte := array_get fcb 12.
Definition record_count (fcb : list byte) : byte := array_get fcb 15.
Definition allocation_map (fcb : list byte) : list byte := map (array_get fcb) (Zrange 16 16).

(** An entry written out field by field; [blocks] are the leading bytes of
    the allocation map, the rest of the map is 00. *)
Definition directory_entry (name extension : list byte) (LE NR : byte) (blocks : list byte)
  : list byte :=
  [x00] ++ name ++ extension ++ [LE; x00; x00; NR]
        ++ blocks ++ repeat x00 (16 - length blocks).

(** The bytes of the block numbers [llb+1 .. llb+n]. *)
Definition block_numbers (llb : Z) (n : nat) : list byte :=
  map (fun j => int_to_char (llb + j)) (Zrange 1 n).

(** The allocation-map bytes of all live slots, in directory order. *)
Definition live_allocation_bytes (fp : image) : list byte :=
  flat_map (fun i => if is_live (dir_slot fp i) then allocation_map (dir_slot fp i) else [])
           (Zrange 0 (Z.to_nat num_of_FCBs)).

(** The largest value among them under the reading [val] of a byte, never
    below 1. *)
Definition highest_block (val : byte -> Z) (fp : image) : Z :=
  fold_left Z.max (map val (live_allocation_bytes fp)) 1.

(** ** What a run writes *)

Definition directory_writes (j : list io_event) : list (Z * list byte) :=
  flat_map (fun e => match e with SaveFCB n b => [(n, b)] | SaveRecord _ _ => [] end) j.

Definition record_writes (j : list io_event) : list (Z * list byte) :=
  flat_map (fun e => match e with SaveRecord n b => [(n, b)] | SaveFCB _ _ => [] end) j.

Definition replay (fp : image) (j : list io_event) : image := fold_left exec_event j fp.

Inductive event_kind : Set :=
| RecordWrite
| DirectoryWrite (slot : Z).

Definition kind_of (e : io_event) : event_kind :=
  match e with
  | SaveRecord _ _ => RecordWrite
  | SaveFCB n _ => DirectoryWrite n
  end.

(** The number of 128-byte records of a file, the last one possibly short. *)
Definition num_records (src : list byte) : Z := (Z.of_nat (length src) + 127) / 128.

(** Record [k] of the file as [record_buff] holds it after the [fread]:
    the bytes read, then what [init_record_buf] had left there. *)
Definition record_at (src : list byte) (k : nat) : list byte :=
  let got := firstn 128 (skipn (128 * k) src) in
  got ++ skipn (length got) init_record_buf.

Definition record_event (llb : Z) (src : list byte) (k : nat) : io_event :=
  SaveRecord (RPD * (llb + 1) + Z.of_nat k) (record_at src k).

(** Byte [j] of [FCB_buff] once [k] records have gone through the loop
    without a flush ([k <= 256]). *)
Definition entry_fn (name extension : list byte) (llb k j : Z) : byte :=
  if j =? 12 then (if k =? 0 then x00 else int_to_char ((k - 1) / 128))
  else if j =? 15 then
    (if k =? 0 then x00 else int_to_char (if k mod 128 =? 0 then 128 else k mod 128))
  else if (16 <=? j) && (j <? 16 + (k + 15) / 16) then int_to_char (llb + (j - 15))
  else array_get (init_FCB_buf name extension) j.

Definition entry_after (name extension : list byte) (llb k : Z) : list byte :=
  map (entry_fn name extension llb k) (Zrange 0 32).

(** The kinds of the events in the journal once [k] records are written. *)
Definition journal_shape (llf k : Z) : list event_kind :=
  repeat RecordWrite (Z.to_nat (Z.min k 256))
  ++ (if 256 <=? k then [DirectoryWrite (llf + 1)] else [])
  ++ repeat RecordWrite (Z.to_nat (k - 256)).

(** ** The address translation as the specification words it *)

Definition PREAMBLE_SIZE : Z := 43 * 16.
Definition HEADER_SIZE : Z := 16.
Definition SECTOR_SIZE : Z := 256.

Definition translate (logicalAddr : Z) : Z :=
  PREAMBLE_SIZE + HEADER_SIZE + logicalAddr + HEADER_SIZE * (logicalAddr / SECTOR_SIZE).

(** The last address whose translation still fits an [int]. *)
Definition last_translatable : Z := 2021160431.

(** The size of the modelled disk in bytes. *)
Definition disk_size : Z := BPS * SPT * TRACKS.

(** ** Reading a file back *)

(** Modelled from the spec: the program has no reader.  The entries of a
    file are the live slots with its name and extension, taken by increasing
    extent index (data model: "chained by increasing extentIndex"). *)
Definition entry_chain (fp : image) (name extension : list byte) : list (list byte) :=
  let entries := filter (fun e => is_live e && is_name_ext e name extension)
                        (map (dir_slot fp) (Zrange 0 (Z.to_nat num_of_FCBs))) in
  flat_map (fun x => filter (fun e => byte_val (extent_index e) =? x) entries)
           (Zrange 0 256).

(** Modelled from the spec: the block numbers an entry references, "unused
    slots = 0". *)
Definition referenced_blocks (e : list byte) : list Z :=
  filter (fun b => negb (b =? 0)) (map byte_val (allocation_map e)).

(** Modelled from the spec: the records of a block, 16 of 128 bytes each. *)
Definition block_records (fp : image) (b : Z) : list (list byte) :=
  map (fun r => pread fp (convert_addr (head_addr_of_record (RPD * b + r))) 128)
      (Zrange 0 (Z.to_nat RPD)).

(** Modelled from the spec: "reading back all records referenced by its
    resulting entry chain", in order: for each entry of the chain, every
    record of every block its allocation map references. *)
Definition read_back (fp : image) (name extension : list byte) : list byte :=
  concat (flat_map (fun e => flat_map (block_records fp) (referenced_blocks e))
                   (entry_chain fp name extension)).

(** The file followed by 1A up to the next 128-byte boundary. *)
Definition padded (src : list byte) : list byte :=
  src ++ repeat x1a (Z.to_nat ((- Z.of_nat (length src)) mod 128)).

(** Modelled from the spec: the read-back "reproduces the original S bytes
    exactly, with trailing bytes equal to 0x1A padding up to the next
    128-byte boundary".  What the last referenced block holds after the last
    record of the file is left open. *)
Definition reads_back (fp : image) (name extension src : list byte) : Prop :=
  firstn (length (padded src)) (read_back fp name extension) = padded src.

(** ** Concrete inputs *)

(** A freshly formatted disk: every byte is E5. *)
Definition blank_image : image := fun _ => xe5.

Definition A_TXT : list byte := bytes_of_string "A.TXT".
Definition README : list byte := bytes_of_string "README".

(** A file of [n] bytes 'A'. *)
Definition file_of_size (n : Z) : list byte := repeat x41 (Z.to_nat n).

(** A file of [n] bytes 00, 01, ..., FF, 00, 01, ... *)
Fixpoint counting_from (n : nat) (z : Z) : list byte :=
  match n with
  | O => []
  | S n' => int_to_char z :: counting_from n' (z + 1)
  end.

Definition counting_file (n : Z) : list byte := counting_from (Z.to_nat n) 0.

(** A disk whose slot 0 holds the second half of BIG.DAT: a live entry with
    the sixteen blocks 121 .. 136. *)
Definition BIG_DAT_entry : list byte :=
  directory_entry (bytes_of_string "BIG     ") (bytes_of_string "DAT") x01 x80
                  (block_numbers 120 16).

Definition nearly_full_image : image := save_FCB blank_image 0 BIG_DAT_entry.

(** A disk whose last directory slot, 127, is live: OLD.DAT, one record in
    block 2. *)
Definition last_slot_live_image : image :=
  save_FCB blank_image 127
           (directory_entry (bytes_of_string "OLD     ") (bytes_of_string "DAT")
                            x00 x01 [x02]).

Definition io_of (r : behaviour run) : list io_event :=
  match r with
  | Returns x => io x
  | _ => []
  end.

Definition image_of (fp : image) (r : behaviour run) : image :=
  match r with
  | Returns x => image_after x
  | _ => fp
  end.

Definition printed_of (r : behaviour run) : option message :=
  match r with
  | Returns x => Some (printed x)
  | _ => None
  end.

(** Whether the journal has a directory write right after its [n]-th record
    write: whether the entry buffer was saved when [n] records had been
    written. *)
Fixpoint saved_after_record (n : nat) (j : list io_event) : bool :=
  match j with
  | [] => false
  | SaveFCB _ _ :: j' => saved_after_record n j'
  | SaveRecord _ _ :: j' =>
      match n with
      | O => false
      | S O => match j' with
               | SaveFCB _ _ :: _ => true
               | _ => false
               end
      | S n' => saved_after_record n' j'
      end
  end.

(** ** Invariants of the write loop *)

(** After [k <= 256] records: the counters, the buffers and the journal in
    closed form.  At 256 the entry has just been saved to slot [llf + 1]
    and initialised again. *)
Definition small_inv (name extension : list byte) (llf llb : Z) (src : list byte)
           (k : nat) (st : write_state) : Prop :=
  (k <= 256)%nat
  /\ record_buff st = init_record_buf
  /\ written_records st = Z.of_nat k
  /\ used_FCBs st = Z.of_nat k / 128
  /\ FCB_buff st = (if (k =? 256)%nat then init_FCB_buf name extension
                    else entry_after name extension llb (Z.of_nat k))
  /\ journal st = map (record_event llb src) (seq 0 k)
                  ++ (if (k =? 256)%nat
                      then [SaveFCB (llf + 1) (entry_after name extension llb 256)]
                      else []).

(** After any number of records: the counters and the kinds of the events. *)
Definition shape_inv (llf : Z) (k : nat) (st : write_state) : Prop :=
  record_buff st = init_record_buf
  /\ written_records st = Z.of_nat k
  /\ used_FCBs st = Z.of_nat k / 128
  /\ map kind_of (journal st) = journal_shape llf (Z.of_nat k).

(** Neither capacity test of the loop fires while [n] records are written. *)
Definition enough_capacity (llf llb : Z) (n : Z) : Prop :=
  n = 0
  \/ (llf + (n - 1) / 128 < num_of_FCBs
      /\ RPD * (llb + 1) + (n - 1) < RPD * num_of_data_blocks).

(** ** Capacity, layout and bounds *)

(** The most records the capacity tests of the loop let through. *)
Definition records_allowed (llf llb : Z) : Z :=
  Z.max 0 (Z.min (128 * (num_of_FCBs - llf))
                 (RPD * num_of_data_blocks - RPD * (llb + 1))).

(** The layout of the .d88 file, from the comment on [convert_addr]: a
    preamble of 43 lines of 16 bytes, then for every 256 bytes of the disk a
    16-byte header followed by the 256 bytes.  [sector_header off] holds of
    the offsets of the preamble and of the headers. *)
Definition sector_header (off : Z) : bool :=
  (off <? 43 * 16) || ((off - 43 * 16) mod (16 + 256) <? 16).

(** The disk address stored at a file offset that is not in a header. *)
Definition disk_addr (off : Z) : Z :=
  256 * ((off - 43 * 16) / (16 + 256)) + ((off - 43 * 16) mod (16 + 256) - 16).

(** A write of the journal that stays where [write_in] may write: a whole
    record at or after the first record of block [llb + 1] and inside the
    data area, or a whole entry in one of the two slots after slot [llf]. *)
Definition event_in_bounds (llf llb : Z) (e : io_event) : Prop :=
  match e with
  | SaveRecord rn buf =>
      RPD * (llb + 1) <= rn < RPD * num_of_data_blocks /\ length buf = 128%nat
  | SaveFCB n buf => (n = llf + 1 \/ n = llf + 2) /\ length buf = 32%nat
  end.

(** The record writes of a journal. *)
Definition records_only (j : list io_event) : list io_event :=
  filter (fun e => match e with SaveRecord _ _ => true | SaveFCB _ _ => false end) j.

(** What holds of every state of the loop, whatever the disk and the file. *)
Definition bounds_inv (llf llb : Z) (st : write_state) : Prop :=
  0 <= used_FCBs st
  /\ 0 <= written_records st
  /\ length (FCB_buff st) = 32%nat
  /\ length (record_buff st) = 128%nat
  /\ Forall (event_in_bounds llf llb) (journal st).

(** After [k] records, of a file of any length: the counters and the record
    writes so far. *)
Definition records_inv (llf llb : Z) (src : list byte) (k : nat) (st : write_state) : Prop :=
  record_buff st = init_record_buf
  /\ written_records st = Z.of_nat k
  /\ used_FCBs st = Z.of_nat k / 128
  /\ records_only (journal st) = map (record_event llb src) (seq 0 k)
  /\ map kind_of (journal st) = journal_shape llf (Z.of_nat k).

(** [n] records of the image read one after the other from record [first]. *)
Definition data_area (fp : image) (first : Z) (n : nat) : list byte :=
  concat (map (fun k => pread fp (convert_addr (head_addr_of_record (first + Z.of_nat k))) 128)
              (seq 0 n)).

(** ** The second entry of a file *)

(** Byte [j] of [FCB_buff] once [k] records have gone through the loop, for
    [256 <= k < 512]: the buffer was initialised again after record 256,
    the extent byte goes on counting 16 KiB units from the start of the
    file, and the blocks are numbered on from [llb + 16]. *)
Definition second_entry_fn (name extension : list byte) (llb k j : Z) : byte :=
  if j =? 12 then (if k =? 256 then x00 else int_to_char ((k - 1) / 128))
  else if j =? 15 then
    (if k =? 256 then x00 else int_to_char (if k mod 128 =? 0 then 128 else k mod 128))
  else if (16 <=? j) && (j <? 16 + (k - 256 + 15) / 16) then int_to_char (llb + 16 + (j - 15))
  else array_get (init_FCB_buf name extension) j.

Definition second_entry_after (name extension : list byte) (llb k : Z) : list byte :=
  map (second_entry_fn name extension llb k) (Zrange 0 32).

(** After [k < 512] records: the counters, the buffers and the journal in
    closed form. *)
Definition two_entries_inv (name extension : list byte) (llf llb : Z) (src : list byte)
           (k : nat) (st : write_state) : Prop :=
  record_buff st = init_record_buf
  /\ written_records st = Z.of_nat k
  /\ used_FCBs st = Z.of_nat k / 128
  /\ FCB_buff st = (if Z.of_nat k <? 256 then entry_after name extension llb (Z.of_nat k)
                    else second_entry_after name extension llb (Z.of_nat k))
  /\ journal st = map (record_event llb src) (seq 0 (Nat.min k 256))
                  ++ (if 256 <=? Z.of_nat k
                      then SaveFCB (llf + 1) (entry_after name extension llb 256)
                           :: map (record_event llb src) (seq 256 (k - 256))
                      else []).

(** * Properties *)

Ltac zlia := Z.to_euclidean_division_equations; lia.

(** ** Integers and bytes *)

Lemma int_wrap_small (z : Z) : INT_MIN <= z <= INT_MAX -> int_wrap z = z.
Proof. unfold int_wrap, INT_MIN, INT_MAX. intros. zlia. Qed.

Lemma byte_val_range (b : byte) : 0 <= byte_val b <= 255.
Proof. unfold byte_val. pose proof (Byte.to_N_bounded b). lia. Qed.

Lemma int_to_char_byte_val (b : byte) : int_to_char (byte_val b) = b.
Proof.
  unfold int_to_char.
  rewrite Z.mod_small by (pose proof (byte_val_range b); lia).
  unfold byte_val. now rewrite N2Z.id, Byte.of_to_N.
Qed.

Lemma byte_val_int_to_char (z : Z) : byte_val (int_to_char z) = z mod 256.
Proof.
  unfold int_to_char, byte_val.
  destruct (Byte.of_N (Z.to_N (z mod 256))) as [b|] eqn:E.
  - apply Byte.to_of_N in E. rewrite E. rewrite Z2N.id; zlia.
  - pose proof (Byte.to_of_N_option_map (Z.to_N (z mod 256))) as H.
    rewrite E in H. cbn in H.
    destruct (N.leb_spec (Z.to_N (z mod 256)) 255); [discriminate | zlia].
Qed.

Lemma byte_eqb_refl (b : byte) : Byte.eqb b b = true.
Proof. now apply Byte.byte_dec_lb. Qed.

(** ** Ranges and arrays *)

Lemma Zrange_length (lo : Z) (n : nat) : length (Zrange lo n) = n.
Proof. unfold Zrange. now rewrite length_map, length_seq. Qed.

Lemma In_Zrange (lo : Z) (n : nat) (i : Z) :
  In i (Zrange lo n) <-> lo <= i < lo + Z.of_nat n.
Proof.
  unfold Zrange. rewrite in_map_iff. split.
  - intros (k & <- & Hk). apply in_seq in Hk. lia.
  - intros H. exists (Z.to_nat (i - lo)). split; [lia | apply in_seq; lia].
Qed.

Lemma Zrange_S (lo : Z) (n : nat) : Zrange lo (S n) = Zrange lo n ++ [lo + Z.of_nat n].
Proof. unfold Zrange. now rewrite seq_S, map_app. Qed.

Lemma array_get_map_Zrange (f : Z -> byte) (lo : Z) (n : nat) (j : Z) :
  0 <= j < Z.of_nat n -> array_get (map f (Zrange lo n)) j = f (lo + j).
Proof.
  intros H. unfold array_get, Zrange. rewrite map_map.
  rewrite nth_indep with (d' := f (lo + Z.of_nat 0)) by (rewrite length_map, length_seq; lia).
  rewrite (map_nth (fun k => f (lo + Z.of_nat k)) (seq 0 n) 0%nat).
  rewrite seq_nth by lia. f_equal. lia.
Qed.

Lemma set_nth_length (n : nat) (v : byte) (l : list byte) : length (set_nth n v l) = length l.
Proof. revert n; induction l as [|x l IH]; intros [|n]; cbn; auto. Qed.

Lemma array_set_length (l : list byte) (i : Z) (v : byte) :
  length (array_set l i v) = length l.
Proof. unfold array_set. destruct (_ && _); auto using set_nth_length. Qed.

Lemma set_nth_map_seq (f : nat -> byte) (v : byte) (n i s : nat) :
  (i < n)%nat ->
  set_nth i v (map f (seq s n)) = map (fun k => if (k =? s + i)%nat then v else f k) (seq s n).
Proof.
  revert i s. induction n as [|n IH]; intros i s Hi; [lia|].
  destruct i as [|i]; cbn [seq map set_nth].
  - rewrite Nat.add_0_r, Nat.eqb_refl. f_equal.
    apply map_ext_in. intros k Hk. apply in_seq in Hk.
    destruct (Nat.eqb_spec k s); [lia | reflexivity].
  - destruct (Nat.eqb_spec s (s + S i)); [lia|]. f_equal.
    rewrite IH by lia. apply map_ext. intros k.
    now replace (S s + i)%nat with (s + S i)%nat by lia.
Qed.

(** Storing into an array given pointwise stays pointwise. *)
Lemma array_set_map_Zrange (f : Z -> byte) (n : nat) (i : Z) (v : byte) :
  0 <= i < Z.of_nat n ->
  array_set (map f (Zrange 0 n)) i v = map (fun j => if j =? i then v else f j) (Zrange 0 n).
Proof.
  intros H. unfold array_set. rewrite length_map, Zrange_length.
  replace ((0 <=? i) && (i <? Z.of_nat n)) with true by lia.
  unfold Zrange. rewrite !map_map. rewrite set_nth_map_seq by lia.
  apply map_ext. intros k. cbn [Nat.add].
  destruct (Nat.eqb_spec k (Z.to_nat i)), (Z.eqb_spec (0 + Z.of_nat k) i); auto; lia.
Qed.

(** ** Reading back what was written *)

Lemma pread_pwrite_same (f : image) (off : Z) (n : nat) (buf : list byte) :
  length buf = n -> pread (pwrite f off (Z.of_nat n) buf) off n = buf.
Proof.
  intros <-. unfold pread. apply nth_ext with (d := x00) (d' := x00).
  - now rewrite length_map, Zrange_length.
  - rewrite length_map, Zrange_length. intros k Hk.
    rewrite nth_indep with (d' := pwrite f off (Z.of_nat (length buf)) buf 0)
      by (rewrite length_map, Zrange_length; lia).
    rewrite map_nth. unfold Zrange.
    rewrite nth_indep with (d' := off + Z.of_nat 0) by (rewrite length_map, length_seq; lia).
    rewrite (map_nth (fun k => off + Z.of_nat k)), seq_nth by lia.
    unfold pwrite, array_get. cbn [Nat.add].
    destruct (Z.leb_spec off (off + Z.of_nat k)); [|lia].
    destruct (Z.ltb_spec (off + Z.of_nat k) (off + Z.of_nat (length buf))); [|lia].
    cbn [andb]. f_equal. lia.
Qed.

Lemma dir_slot_save_FCB (fp : image) (n : Z) (fcb : list byte) :
  length fcb = 32%nat -> dir_slot (save_FCB fp n fcb) n = fcb.
Proof. intros H. unfold dir_slot, save_FCB. now apply (pread_pwrite_same _ _ 32). Qed.

(** ** Address translation *)

Lemma translate_fits (addr : Z) :
  0 <= addr <= last_translatable -> INT_MIN <= translate addr <= INT_MAX.
Proof.
  unfold translate, PREAMBLE_SIZE, HEADER_SIZE, SECTOR_SIZE, last_translatable, INT_MIN, INT_MAX.
  intros. zlia.
Qed.

Lemma convert_addr_exact (addr : Z) :
  0 <= addr <= last_translatable -> convert_addr addr = translate addr.
Proof.
  intros H. pose proof (translate_fits addr H) as Hfit.
  unfold convert_addr.
  assert (E : 43 * 16 + 16 + addr + 16 * (addr ÷ 256) = translate addr).
  { unfold translate, PREAMBLE_SIZE, HEADER_SIZE, SECTOR_SIZE.
    rewrite Z.quot_div_nonneg by lia. reflexivity. }
  rewrite E. now apply int_wrap_small.
Qed.

(** C8: for every logical address of the disk, from 0 up to its size of
    327680 bytes, [convert_addr] returns exactly
    PREAMBLE_SIZE + HEADER_SIZE + addr + HEADER_SIZE * (addr / SECTOR_SIZE)
    in exact integer arithmetic, with HEADER_SIZE = 16 and
    SECTOR_SIZE = 256: the [int] arithmetic of the code does not wrap on
    the disk. *)
Theorem convert_addr_translate (addr : Z) :
  0 <= addr < disk_size ->
  convert_addr addr = translate addr /\ HEADER_SIZE = 16 /\ SECTOR_SIZE = 256.
Proof.
  intros H. split; [|split; reflexivity].
  apply convert_addr_exact.
  unfold disk_size, BPS, SPT, TRACKS, last_translatable in *. lia.
Qed.

Lemma convert_addr_translate_witness :
  0 <= 16384 < disk_size
  /\ (convert_addr 16384 = translate 16384 /\ HEADER_SIZE = 16 /\ SECTOR_SIZE = 256).
Proof.
  split; [unfold disk_size, BPS, SPT, TRACKS; lia|].
  apply (convert_addr_translate 16384). unfold disk_size, BPS, SPT, TRACKS. lia.
Defined.

(** The same holds up to 2021160431, the last address whose translation
    fits an [int]; every address of the disk is inside that range. *)
Lemma convert_addr_on_disk (addr : Z) :
  0 <= addr < disk_size -> convert_addr addr = translate addr.
Proof.
  intros H. apply convert_addr_exact.
  unfold disk_size, BPS, SPT, TRACKS, last_translatable in *. lia.
Qed.

(** Far beyond the disk the [int] arithmetic wraps: INT_MAX, which no
    caller passes, is translated to a negative offset. *)
Lemma convert_addr_overflows :
  0 <= INT_MAX /\ convert_addr INT_MAX <> translate INT_MAX.
Proof. split; [unfold INT_MAX; lia | vm_compute; discriminate]. Qed.

(** The bound is the best one. *)
Lemma convert_addr_first_overflow :
  convert_addr (last_translatable + 1) <> translate (last_translatable + 1).
Proof. vm_compute. discriminate. Qed.

(** ** File name *)

Lemma strrchr_None (s : list byte) (c : byte) : ~ In c s -> strrchr s c = None.
Proof.
  induction s as [|x s IH]; intros H; [reflexivity|].
  cbn [strrchr]. rewrite IH by (intros Hin; apply H; now right).
  destruct (Byte.eqb x c) eqn:E; [|reflexivity].
  apply Byte.byte_dec_bl in E. exfalso. apply H. now left.
Qed.

(** C7 on the code: for a host file name without '.', [separate_name] runs
    into undefined behaviour ([strrchr] returns NULL, [NULL + 1] is handed to
    [strlen]); no error is reported. *)
Theorem separate_name_without_dot (cpm_filename : list byte) :
  ~ In dot cpm_filename -> separate_name cpm_filename = UndefinedBehaviour.
Proof. intros H. unfold separate_name. now rewrite strrchr_None. Qed.

Lemma separate_name_without_dot_witness :
  ~ In dot README /\ separate_name README = UndefinedBehaviour.
Proof.
  assert (H : ~ In dot README).
  { cbv. intros H. repeat (destruct H as [H|H]; [discriminate H|]). exact H. }
  split; [exact H | apply (separate_name_without_dot README H)].
Defined.

(** The whole of [write_in] is then undefined as well. *)
Lemma write_in_without_dot (ck : char_signedness) (img : image) (cpm_filename src : list byte) :
  ~ In dot cpm_filename -> write_in ck img cpm_filename src = UndefinedBehaviour.
Proof. intros H. unfold write_in, separate_name. now rewrite strrchr_None. Qed.

Lemma copy_toupper_length (n : nat) (src dst : list byte) :
  length (copy_toupper n src dst) = length dst.
Proof.
  revert src dst. induction n as [|n IH]; intros [|c src] [|d dst]; cbn; auto.
Qed.

Lemma separate_name_lengths (cpm_filename name extension : list byte) :
  separate_name cpm_filename = Returns (name, extension) ->
  length name = 8%nat /\ length extension = 3%nat.
Proof.
  unfold separate_name. destruct (strrchr cpm_filename dot); [|discriminate].
  intros H. injection H as <- <-. now rewrite !copy_toupper_length.
Qed.

(** ** Directory scan *)

Lemma raise_block_num_max (ck : char_signedness) (fcb : list byte) (m : Z) :
  raise_block_num ck fcb m = fold_left Z.max (map (char_to_int ck) (allocation_map fcb)) m.
Proof.
  unfold raise_block_num, allocation_map. rewrite map_map.
  generalize (Zrange 16 16) as l. intros l. revert m.
  induction l as [|j l IH]; intros m; [reflexivity|].
  cbn [fold_left map]. rewrite IH. f_equal.
  destruct (Z.ltb_spec m (char_to_int ck (array_get fcb j))); lia.
Qed.

Lemma scan_block_num (ck : char_signedness) (name extension : list byte) (fp : image)
      (l : list Z) (s : scan_state) :
  last_living_block_num (fold_left (scan_FCB ck name extension fp) l s)
  = fold_left Z.max
      (map (char_to_int ck)
           (flat_map (fun i => if is_live (dir_slot fp i)
                               then allocation_map (dir_slot fp i) else []) l))
      (last_living_block_num s).
Proof.
  revert s. induction l as [|i l IH]; intros s; [reflexivity|].
  cbn [fold_left flat_map]. rewrite IH, map_app, fold_left_app. f_equal.
  unfold scan_FCB. fold (dir_slot fp i). fold (is_live (dir_slot fp i)).
  destruct (is_live (dir_slot fp i)); [|reflexivity].
  cbn [last_living_block_num]. apply raise_block_num_max.
Qed.

(** What the scanner computes, whatever the signedness of [char]: the
    largest allocation-map byte of the live slots as [char_to_int] reads
    it, starting from 1. *)
Lemma same_name_check_block_num (ck : char_signedness) (name extension : list byte)
      (fp : image) :
  last_living_block_num (same_name_check ck name extension fp)
  = highest_block (char_to_int ck) fp.
Proof. unfold same_name_check. now rewrite scan_block_num. Qed.

Lemma fold_max_ge (l : list Z) (m : Z) : m <= fold_left Z.max l m.
Proof.
  revert m. induction l as [|x l IH]; intros m; cbn [fold_left]; [lia|].
  specialize (IH (Z.max m x)). lia.
Qed.

(** The first block written, [last_living_block_num + 1], is never one of
    the two directory blocks. *)
Lemma first_writable_block (ck : char_signedness) (name extension : list byte) (fp : image) :
  2 <= last_living_block_num (same_name_check ck name extension fp) + 1.
Proof.
  rewrite same_name_check_block_num. unfold highest_block.
  pose proof (fold_max_ge (map (char_to_int ck) (live_allocation_bytes fp)) 1). lia.
Qed.

(** Where plain [char] is unsigned the scanner returns, for every directory,
    the maximum of the allocation-map bytes of the live slots read as
    0..255, starting from 1; the first block written is then at least 2. *)
Theorem same_name_check_unsigned_char (name extension : list byte) (fp : image) :
  last_living_block_num (same_name_check UnsignedChar name extension fp)
  = highest_block byte_val fp
  /\ 2 <= last_living_block_num (same_name_check UnsignedChar name extension fp) + 1.
Proof.
  split; [now rewrite same_name_check_block_num | apply first_writable_block].
Qed.

(** C3 on the code, where plain [char] is signed: on a disk whose live entry
    holds the blocks 121..136 the scanner returns 127, not the maximum 136
    of the bytes read as unsigned; the bytes 80..88 compare as negative. *)
Theorem same_name_check_signed_char_misses_high_blocks :
  forall name extension : list byte,
    last_living_block_num (same_name_check SignedChar name extension nearly_full_image) = 127
    /\ highest_block byte_val nearly_full_image = 136.
Proof.
  intros name extension. rewrite same_name_check_block_num.
  split; vm_compute; reflexivity.
Qed.

(** ** Name conflicts *)

Lemma is_name_ext_own (fcb : list byte) :
  is_name_ext fcb (entry_name fcb) (entry_extension fcb) = true.
Proof.
  unfold is_name_ext. apply andb_true_intro. split; apply forallb_forall; intros i Hi;
    apply In_Zrange in Hi.
  - unfold entry_name. rewrite array_get_map_Zrange by lia.
    replace (1 + (i - 1)) with i by lia. apply byte_eqb_refl.
  - unfold entry_extension. rewrite array_get_map_Zrange by lia.
    replace (9 + (i - 9)) with i by lia. apply byte_eqb_refl.
Qed.

Lemma scan_same_name_sticky (ck : char_signedness) (name extension : list byte) (fp : image)
      (l : list Z) (s : scan_state) :
  same_name s = 1 -> same_name (fold_left (scan_FCB ck name extension fp) l s) = 1.
Proof.
  revert s. induction l as [|i l IH]; intros s Hs; [exact Hs|].
  cbn [fold_left]. apply IH. unfold scan_FCB.
  destruct (Byte.eqb _ _); [|exact Hs]. cbn [same_name].
  now destruct (is_name_ext _ _ _).
Qed.

Lemma scan_finds_name (ck : char_signedness) (name extension : list byte) (fp : image)
      (l : list Z) (s : scan_state) (i : Z) :
  In i l ->
  is_live (dir_slot fp i) = true ->
  is_name_ext (dir_slot fp i) name extension = true ->
  same_name (fold_left (scan_FCB ck name extension fp) l s) = 1.
Proof.
  revert s. induction l as [|j l IH]; intros s Hin Hlive Hname; [contradiction|].
  cbn [fold_left]. destruct Hin as [->|Hin]; [|now apply IH].
  apply scan_same_name_sticky. unfold scan_FCB.
  fold (dir_slot fp i). fold (is_live (dir_slot fp i)).
  now rewrite Hlive, Hname.
Qed.

(** C4: when some live directory slot carries the normalised name and
    extension of the host file, [write_in] prints the same-name message and
    returns with the image untouched: no [save_record], no [save_FCB]. *)
Theorem write_in_name_conflict (ck : char_signedness) (img : image)
        (cpm_filename src name extension : list byte) (i : Z) :
  separate_name cpm_filename = Returns (name, extension) ->
  0 <= i < num_of_FCBs ->
  is_live (dir_slot img i) = true ->
  entry_name (dir_slot img i) = name ->
  entry_extension (dir_slot img i) = extension ->
  write_in ck img cpm_filename src
  = Returns {| printed := SameNameExists; image_after := img; io := [] |}.
Proof.
  intros Hsep Hi Hlive Hname Hext. unfold write_in. rewrite Hsep.
  assert (E : same_name (same_name_check ck name extension img) = 1).
  { unfold same_name_check. apply scan_finds_name with (i := i); auto.
    - apply In_Zrange. change (Z.of_nat (Z.to_nat num_of_FCBs)) with num_of_FCBs. lia.
    - rewrite <- Hname, <- Hext. apply is_name_ext_own. }
  rewrite E. reflexivity.
Qed.

(** A disk whose slot 3 already holds A.TXT. *)
Lemma write_in_name_conflict_witness :
  let img := save_FCB blank_image 3
               (directory_entry (bytes_of_string "A       ") (bytes_of_string "TXT")
                                x00 x01 [x02]) in
  write_in SignedChar img A_TXT (file_of_size 300)
  = Returns {| printed := SameNameExists; image_after := img; io := [] |}.
Proof.
  intros img.
  apply (write_in_name_conflict SignedChar img A_TXT (file_of_size 300)
           (bytes_of_string "A       ") (bytes_of_string "TXT") 3).
  - vm_compute. reflexivity.
  - vm_compute. split; [discriminate | reflexivity].
  - vm_compute. reflexivity.
  - vm_compute. reflexivity.
  - vm_compute. reflexivity.
Defined.

(** ** The fresh entry buffer *)

Lemma init_FCB_buf_entry (name extension : list byte) :
  length name = 8%nat -> length extension = 3%nat ->
  init_FCB_buf name extension = directory_entry name extension x00 x00 [].
Proof.
  intros Hn He.
  destruct name as [|n0 [|n1 [|n2 [|n3 [|n4 [|n5 [|n6 [|n7 [|]]]]]]]]]; try discriminate Hn.
  destruct extension as [|e0 [|e1 [|e2 [|]]]]; try discriminate He.
  reflexivity.
Qed.

Lemma init_FCB_buf_length (name extension : list byte) :
  length (init_FCB_buf name extension) = 32%nat.
Proof. reflexivity. Qed.

(** ** The write loop *)

Lemma write_loop_S (fuel : nat) (name extension : list byte) (llf llb : Z)
      (st : write_state) (rfp : list byte) :
  write_loop (S fuel) name extension llf llb st rfp
  = if Z.of_nat (length (firstn 128 rfp)) =? 0 then Returns (None, st)
    else
      let st1 := set_record_buff st
                   (firstn 128 rfp ++ skipn (length (firstn 128 rfp)) (record_buff st)) in
      if capacity_exceeded llf llb st1 then Returns (Some NotEnoughCapacity, st1)
      else write_loop fuel name extension llf llb
                      (loop_body name extension llf llb st1) (skipn 128 rfp).
Proof. reflexivity. Qed.

(** The loop ends: each turn consumes at least one byte of the host file,
    so [S (length src)] turns are enough, and the loop itself has no
    undefined step. *)
Lemma write_loop_returns (fuel : nat) (name extension : list byte) (llf llb : Z)
      (st : write_state) (rfp : list byte) :
  (length rfp < fuel)%nat ->
  exists m st', write_loop fuel name extension llf llb st rfp = Returns (m, st').
Proof.
  revert st rfp. induction fuel as [|fuel IH]; intros st rfp Hfuel; [lia|].
  rewrite write_loop_S.
  destruct (Z.eqb_spec (Z.of_nat (length (firstn 128 rfp))) 0) as [E|E]; [eauto|].
  cbv zeta. destruct (capacity_exceeded _ _ _); [eauto|].
  apply IH. rewrite length_firstn in E. rewrite length_skipn. lia.
Qed.

(** The image in the state is the initial image with the journal applied. *)
Lemma loop_body_replay (name extension : list byte) (llf llb : Z) (st : write_state)
      (img : image) :
  wfp st = replay img (journal st) ->
  wfp (loop_body name extension llf llb st)
  = replay img (journal (loop_body name extension llf llb st)).
Proof.
  intros H. unfold loop_body.
  destruct (written_records st + 1 =? BPS); cbn [wfp journal];
    unfold replay in *; rewrite !fold_left_app; cbn [fold_left exec_event]; now rewrite H.
Qed.

Lemma write_loop_replay (fuel : nat) (name extension : list byte) (llf llb : Z)
      (st st' : write_state) (rfp : list byte) (img : image) (m : option message) :
  wfp st = replay img (journal st) ->
  write_loop fuel name extension llf llb st rfp = Returns (m, st') ->
  wfp st' = replay img (journal st').
Proof.
  revert st rfp. induction fuel as [|fuel IH]; intros st rfp Hst; [discriminate|].
  rewrite write_loop_S.
  destruct (Z.of_nat (length (firstn 128 rfp)) =? 0).
  - intros H. injection H as <- <-. exact Hst.
  - cbv zeta. destruct (capacity_exceeded _ _ _).
    + intros H. injection H as <- <-. exact Hst.
    + apply IH. now apply loop_body_replay.
Qed.

Section LoopRule.

Variables (name extension : list byte) (llf llb : Z) (src : list byte).

(** [Inv k st]: what holds of the state once [k] records are written. *)
Variable Inv : nat -> write_state -> Prop.
Variable N : nat.

Hypothesis N_records : Z.of_nat N = num_records src.

Hypothesis Inv_counters : forall k st,
    Inv k st ->
    record_buff st = init_record_buf
    /\ written_records st = Z.of_nat k
    /\ used_FCBs st = Z.of_nat k / 128.

Hypothesis Inv_step : forall k st,
    (k < N)%nat -> Inv k st ->
    Inv (S k) (loop_body name extension llf llb (set_record_buff st (record_at src k))).

(** Neither capacity test fires before the last record is written. *)
Hypothesis capacity : enough_capacity llf llb (Z.of_nat N).

Lemma write_loop_rule (fuel k : nat) (st : write_state) :
  (k <= N)%nat -> Inv k st ->
  (length (skipn (128 * k) src) < fuel)%nat ->
  exists st',
    write_loop fuel name extension llf llb st (skipn (128 * k) src) = Returns (None, st')
    /\ Inv N st'.
Proof.
  revert k st. induction fuel as [|fuel IH]; intros k st Hk HI Hfuel; [lia|].
  destruct (Inv_counters k st HI) as (Hbuf & Hwr & Hused).
  unfold num_records in N_records.
  rewrite write_loop_S. rewrite length_skipn in Hfuel.
  destruct (Nat.eq_dec k N) as [->|Hne].
  - rewrite skipn_all2 by zlia. cbn [firstn length Z.of_nat Z.eqb]. eauto.
  - assert (Hlt : (128 * k < length src)%nat) by zlia.
    rewrite length_firstn, length_skipn.
    destruct (Z.eqb_spec (Z.of_nat (Nat.min 128 (length src - 128 * k))) 0); [lia|].
    cbv zeta. rewrite Hbuf. fold (record_at src k).
    replace (firstn 128 (skipn (128 * k) src)
             ++ skipn (Nat.min 128 (length src - 128 * k)) init_record_buf)
      with (record_at src k)
      by (unfold record_at; now rewrite length_firstn, length_skipn).
    assert (Hcap : capacity_exceeded llf llb (set_record_buff st (record_at src k)) = false).
    { unfold capacity_exceeded, set_record_buff. cbn [used_FCBs written_records].
      rewrite Hwr, Hused. destruct capacity as [C0|[C1 C2]]; [lia|].
      apply orb_false_intro; apply Z.leb_gt; zlia. }
    rewrite Hcap. rewrite skipn_skipn.
    replace (128 + 128 * k)%nat with (128 * S k)%nat by lia.
    apply IH; [lia | apply Inv_step; [lia | exact HI] | rewrite length_skipn; lia].
Qed.

End LoopRule.

(** ** The entry buffer in closed form *)


Lemma entry_after_length (name extension : list byte) (llb k : Z) :
  length (entry_after name extension llb k) = 32%nat.
Proof. unfold entry_after. now rewrite length_map, Zrange_length. Qed.

(** The three stores of one turn of the loop take the closed form at [k]
    to the closed form at [k + 1]. *)
Lemma entry_step (name extension : list byte) (llb k : Z) :
  0 <= k < 256 ->
  array_set
    (array_set
       (array_set (entry_after name extension llb k) 12 (int_to_char (k / 128)))
       15 (int_to_char (if Z.rem (k + 1) 128 =? 0 then 128 else Z.rem (k + 1) 128)))
    (16 + Z.rem (16 + (Z.quot (k + 1) RPD + (if Z.rem (k + 1) RPD =? 0 then 0 else 1)) - 1) 16)
    (int_to_char (llb + (Z.quot (k + 1) RPD + (if Z.rem (k + 1) RPD =? 0 then 0 else 1))))
  = entry_after name extension llb (k + 1).
Proof.
  intros Hk.
  assert (Hwb : Z.quot (k + 1) RPD + (if Z.rem (k + 1) RPD =? 0 then 0 else 1)
                = (k + 1 + 15) / 16).
  { unfold RPD. destruct (Z.eqb_spec (Z.rem (k + 1) 16) 0); zlia. }
  rewrite Hwb.
  assert (Hoff : Z.rem (16 + (k + 1 + 15) / 16 - 1) 16 = (k + 1 + 15) / 16 - 1) by zlia.
  rewrite Hoff.
  assert (Hrem : Z.rem (k + 1) 128 = (k + 1) mod 128) by zlia.
  rewrite Hrem.
  assert (F1 : (k + 15) / 16 <= (k + 1 + 15) / 16 <= (k + 15) / 16 + 1) by zlia.
  assert (F2 : 1 <= (k + 1 + 15) / 16 <= 16) by zlia.
  unfold entry_after.
  rewrite !array_set_map_Zrange by (cbn [Z.of_nat Pos.of_succ_nat Pos.succ]; lia).
  apply map_ext_in. intros j Hj. apply In_Zrange in Hj.
  unfold entry_fn. replace (k + 1 - 1) with k by lia.
  set (w := (k + 15) / 16) in *. set (w' := (k + 1 + 15) / 16) in *.
  destruct (Z.eqb_spec j (16 + (w' - 1))), (Z.eqb_spec j 15), (Z.eqb_spec j 12),
    (Z.leb_spec 16 j), (Z.ltb_spec j (16 + w)), (Z.ltb_spec j (16 + w')),
    (Z.eqb_spec (k + 1) 0);
    cbn [andb]; try lia; try reflexivity; f_equal; lia.
Qed.

Lemma directory_writes_app (a b : list io_event) :
  directory_writes (a ++ b) = directory_writes a ++ directory_writes b.
Proof. unfold directory_writes. apply flat_map_app. Qed.

Lemma directory_writes_records (llb : Z) (src : list byte) (l : list nat) :
  directory_writes (map (record_event llb src) l) = [].
Proof. induction l as [|k l IH]; [reflexivity | exact IH]. Qed.

Lemma record_writes_app (a b : list io_event) :
  record_writes (a ++ b) = record_writes a ++ record_writes b.
Proof. unfold record_writes. apply flat_map_app. Qed.

Lemma record_writes_records (llb : Z) (src : list byte) (l : list nat) :
  length (record_writes (map (record_event llb src) l)) = length l.
Proof.
  unfold record_writes. induction l as [|k l IH]; [reflexivity|].
  cbn [map flat_map record_event app length]. now rewrite IH.
Qed.

(** ** Files of at most 256 records *)

Section SmallRun.

Variables (name extension : list byte) (llf llb : Z) (src : list byte) (img : image).

Lemma small_inv_start :
  small_inv name extension llf llb src 0 (start_state name extension img).
Proof. unfold small_inv, start_state. cbn. repeat split. lia. Qed.

Lemma small_inv_step (k : nat) (st : write_state) :
  (k < 256)%nat ->
  small_inv name extension llf llb src k st ->
  small_inv name extension llf llb src (S k)
            (loop_body name extension llf llb (set_record_buff st (record_at src k))).
Proof.
  intros Hk (_ & Hbuf & Hwr & Hused & Hfcb & Hj).
  destruct (Nat.eqb_spec k 256) as [|_]; [lia|].
  rewrite app_nil_r in Hj.
  assert (Hused' : (if Z.rem (Z.of_nat k + 1) 128 =? 0
                    then Z.of_nat k / 128 + 1 else Z.of_nat k / 128)
                   = Z.of_nat (S k) / 128).
  { destruct (Z.eqb_spec (Z.rem (Z.of_nat k + 1) 128) 0); zlia. }
  unfold small_inv, loop_body, set_record_buff.
  cbn [used_FCBs written_records FCB_buff record_buff journal].
  rewrite Hwr, Hused, Hfcb, Hj, Hused'.
  rewrite entry_step by lia.
  replace (Z.of_nat k + 1) with (Z.of_nat (S k)) by lia.
  rewrite <- Hwr at 1. fold (record_event llb src k). rewrite Hwr.
  assert (Hseq : map (record_event llb src) (seq 0 k) ++ [record_event llb src k]
                 = map (record_event llb src) (seq 0 (S k)))
    by now rewrite seq_S, map_app.
  unfold BPS.
  destruct (Z.eqb_spec (Z.of_nat (S k)) 256) as [E|E].
  - assert (k = 255)%nat as -> by lia.
    cbn [used_FCBs written_records FCB_buff record_buff journal].
    rewrite Hseq. change (Z.of_nat 256) with 256.
    change (Z.rem (256 / 128) 2) with 0. rewrite Z.add_0_r.
    repeat split; try reflexivity; lia.
  - destruct (Nat.eqb_spec (S k) 256) as [|_]; [lia|].
    cbn [used_FCBs written_records FCB_buff record_buff journal].
    rewrite Hseq, app_nil_r. repeat split; try reflexivity; lia.
Qed.

End SmallRun.

(** A completed run of at most 256 records, in terms of the state in which
    the loop ends.  [llf] and [llb] are what the scan returns. *)
Lemma write_in_small (ck : char_signedness) (img : image)
      (cpm_filename src name extension : list byte) (llf llb : Z) (N : nat) :
  separate_name cpm_filename = Returns (name, extension) ->
  same_name_check ck name extension img
  = {| same_name := 0; last_living_FCB_num := llf; last_living_block_num := llb |} ->
  Z.of_nat N = num_records src ->
  (N <= 256)%nat ->
  enough_capacity llf llb (Z.of_nat N) ->
  exists st,
    write_in ck img cpm_filename src
    = Returns
        {| printed := Done;
           image_after := save_FCB (wfp st) (llf + 1 + Z.rem (used_FCBs st) 2) (FCB_buff st);
           io := journal st ++ [SaveFCB (llf + 1 + Z.rem (used_FCBs st) 2) (FCB_buff st)] |}
    /\ small_inv name extension llf llb src N st.
Proof.
  intros Hsep Hscan HN Hle Hcap.
  destruct (write_loop_rule name extension llf llb src
              (small_inv name extension llf llb src) N HN)
    with (fuel := S (length src)) (k := 0%nat) (st := start_state name extension img)
    as (st & Hrun & Hinv).
  - intros k st (_ & Hb & Hw & Hu & _). auto.
  - intros k st Hk. apply small_inv_step. lia.
  - exact Hcap.
  - lia.
  - apply small_inv_start.
  - change (128 * 0)%nat with 0%nat. cbn [skipn]. lia.
  - exists st. split; [|exact Hinv].
    unfold write_in. rewrite Hsep, Hscan.
    cbn [same_name last_living_FCB_num last_living_block_num Z.eqb negb].
    change (128 * 0)%nat with 0%nat in Hrun. cbn [skipn] in Hrun.
    now rewrite Hrun.
Qed.

Lemma last_living_FCB_num_range (ck : char_signedness) (name extension : list byte) (fp : image) :
  -1 <= last_living_FCB_num (same_name_check ck name extension fp) < num_of_FCBs.
Proof.
  unfold same_name_check.
  assert (H : forall l s,
             (forall i, In i l -> 0 <= i < num_of_FCBs) ->
             -1 <= last_living_FCB_num s < num_of_FCBs ->
             -1 <= last_living_FCB_num (fold_left (scan_FCB ck name extension fp) l s)
             < num_of_FCBs).
  { induction l as [|i l IH]; intros s Hl Hs; [exact Hs|].
    cbn [fold_left]. apply IH; [intros j Hj; apply Hl; now right|].
    unfold scan_FCB. destruct (Byte.eqb _ _); [|exact Hs].
    cbn [last_living_FCB_num]. specialize (Hl i (or_introl eq_refl)). lia. }
  apply H.
  - intros i Hi. apply In_Zrange in Hi.
    change (Z.of_nat (Z.to_nat num_of_FCBs)) with num_of_FCBs in Hi. lia.
  - cbn. unfold num_of_FCBs, DATA_BLOCK_SIZE. cbn. lia.
Qed.

(** ** The entries of files of 128, 129 and 256 records *)

Ltac explicit_name Hn He :=
  match type of Hn with
  | length ?name = _ =>
      destruct name as [|? [|? [|? [|? [|? [|? [|? [|? [|]]]]]]]]]; try discriminate Hn
  end;
  match type of He with
  | length ?extension = _ =>
      destruct extension as [|? [|? [|? [|]]]]; try discriminate He
  end.

Lemma entry_after_128 (name extension : list byte) (llb : Z) :
  length name = 8%nat -> length extension = 3%nat ->
  entry_after name extension llb 128
  = directory_entry name extension x00 x80 (block_numbers llb 8).
Proof. intros Hn He. explicit_name Hn He. reflexivity. Qed.

Lemma entry_after_129 (name extension : list byte) (llb : Z) :
  length name = 8%nat -> length extension = 3%nat ->
  entry_after name extension llb 129
  = directory_entry name extension x01 x01 (block_numbers llb 9).
Proof. intros Hn He. explicit_name Hn He. reflexivity. Qed.

Lemma entry_after_256 (name extension : list byte) (llb : Z) :
  length name = 8%nat -> length extension = 3%nat ->
  entry_after name extension llb 256
  = directory_entry name extension x01 x80 (block_numbers llb 16).
Proof. intros Hn He. explicit_name Hn He. reflexivity. Qed.

Lemma directory_entry_fields (name extension : list byte) (LE NR : byte) (blocks : list byte) :
  length name = 8%nat -> length extension = 3%nat -> (length blocks <= 16)%nat ->
  length (directory_entry name extension LE NR blocks) = 32%nat
  /\ is_live (directory_entry name extension LE NR blocks) = true
  /\ entry_name (directory_entry name extension LE NR blocks) = name
  /\ entry_extension (directory_entry name extension LE NR blocks) = extension
  /\ extent_index (directory_entry name extension LE NR blocks) = LE
  /\ record_count (directory_entry name extension LE NR blocks) = NR.
Proof.
  intros Hn He Hb. explicit_name Hn He. repeat split.
  unfold directory_entry. cbn [app length]. rewrite length_app, repeat_length. lia.
Qed.

Lemma block_numbers_nonzero (llb : Z) (n : nat) :
  1 <= llb -> llb + Z.of_nat n < 256 ->
  Forall (fun b => b <> x00) (block_numbers llb n).
Proof.
  intros H1 H2. apply Forall_forall. intros b Hb.
  unfold block_numbers in Hb. apply in_map_iff in Hb. destruct Hb as (j & <- & Hj).
  apply In_Zrange in Hj. intros E.
  apply (f_equal byte_val) in E. rewrite byte_val_int_to_char in E.
  change (byte_val x00) with 0 in E. zlia.
Qed.

Lemma allocation_map_entry (name extension : list byte) (LE NR : byte) (llb : Z) (n : nat) :
  length name = 8%nat -> length extension = 3%nat -> (n <= 16)%nat ->
  allocation_map (directory_entry name extension LE NR (block_numbers llb n))
  = block_numbers llb n ++ repeat x00 (16 - n).
Proof.
  intros Hn He Hle. explicit_name Hn He.
  do 17 (destruct n as [|n]; [reflexivity|]). lia.
Qed.

(** ** 16385 bytes on a blank disk *)

(** C1 as stated fails: on a blank disk the 16385-byte file A.TXT leaves
    one directory write, not two, and no entry with extent byte 0. *)
Lemma write_in_16385_bytes_not_two_entries :
  let r := write_in SignedChar blank_image A_TXT (file_of_size 16385) in
  printed_of r = Some Done
  /\ length (directory_writes (io_of r)) <> 2%nat
  /\ map (fun e => extent_index (snd e)) (directory_writes (io_of r)) = [x01]
  /\ length (entry_chain (image_of blank_image r)
                         (bytes_of_string "A       ") (bytes_of_string "TXT")) = 1%nat.
Proof.
  cbv zeta. repeat split; try (vm_compute; reflexivity).
  vm_compute. discriminate.
Qed.

(** ** 16384 bytes on a blank disk *)

(** C6 as stated fails: on a blank disk the one entry of the 16384-byte
    file A.TXT has a zero in its allocation map (its ninth byte). *)
Lemma write_in_16384_bytes_map_not_full :
  let r := write_in SignedChar blank_image A_TXT (file_of_size 16384) in
  ~ (exists slot entry,
        directory_writes (io_of r) = [(slot, entry)]
        /\ record_count entry = x80
        /\ Forall (fun b => b <> x00) (allocation_map entry)).
Proof.
  cbv zeta. intros (slot & entry & H1 & _ & H3).
  vm_compute in H1. injection H1 as _ <-.
  rewrite Forall_forall in H3. apply (H3 x00); [|reflexivity].
  vm_compute. do 8 right. left. reflexivity.
Qed.

(** ** Exactly 32768 bytes *)

(** C9, as the code has it: when a 32768-byte file (256 records) is written
    under a non-conflicting name and neither capacity test of the loop
    fires, the save inside the loop and the save after the loop both go to
    slot [llf + 1]; the second one writes the buffer as [init_FCB_buf] has
    just left it, record count 0 and an allocation map of zeros, over the
    full entry. *)
Theorem write_in_32768_bytes (ck : char_signedness) (img : image)
        (cpm_filename src name extension : list byte) (llf llb : Z) :
  separate_name cpm_filename = Returns (name, extension) ->
  same_name_check ck name extension img
  = {| same_name := 0; last_living_FCB_num := llf; last_living_block_num := llb |} ->
  Z.of_nat (length src) = 32768 ->
  llf + 1 < num_of_FCBs ->
  RPD * (llb + 1) + 255 < RPD * num_of_data_blocks ->
  let full := directory_entry name extension x01 x80 (block_numbers llb 16) in
  let fresh := init_FCB_buf name extension in
  exists r,
    write_in ck img cpm_filename src = Returns r
    /\ printed r = Done
    /\ io r = map (record_event llb src) (seq 0 256)
              ++ [SaveFCB (llf + 1) full; SaveFCB (llf + 1) fresh]
    /\ directory_writes (io r) = [(llf + 1, full); (llf + 1, fresh)]
    /\ record_count full = x80
    /\ allocation_map full = block_numbers llb 16
    /\ fresh = directory_entry name extension x00 x00 []
    /\ record_count fresh = x00
    /\ allocation_map fresh = repeat x00 16
    /\ dir_slot (image_after r) (llf + 1) = fresh.
Proof.
  intros Hsep Hscan Hlen Hllf Hllb full fresh.
  destruct (separate_name_lengths _ _ _ Hsep) as [Hn He].
  destruct (write_in_small ck img cpm_filename src name extension llf llb 256 Hsep Hscan)
    as (st & Hrun & Hinv).
  - unfold num_records. rewrite Hlen. reflexivity.
  - lia.
  - right. change ((Z.of_nat 256 - 1) / 128) with 1. change (Z.of_nat 256 - 1) with 255.
    split; assumption.
  - destruct Hinv as (_ & _ & _ & Hused & Hfcb & Hj).
    change (256 =? 256)%nat with true in Hfcb, Hj.
    change (Z.of_nat 256 / 128) with 2 in Hused.
    rewrite entry_after_256 in Hj by assumption. fold full in Hj. fold fresh in Hfcb.
    rewrite Hused, Hfcb, Hj in Hrun. change (Z.rem 2 2) with 0 in Hrun.
    rewrite Z.add_0_r, <- app_assoc in Hrun. cbn [app] in Hrun.
    eexists. split; [exact Hrun|]. cbn [printed io image_after].
    split; [reflexivity|]. split; [reflexivity|].
    split; [now rewrite directory_writes_app, directory_writes_records|].
    assert (Hfresh : fresh = directory_entry name extension x00 x00 [])
      by now apply init_FCB_buf_entry.
    assert (G1 : record_count full = x80)
      by (unfold full; explicit_name Hn He; reflexivity).
    assert (G2 : allocation_map full = block_numbers llb 16)
      by (unfold full; rewrite allocation_map_entry by (auto; lia); apply app_nil_r).
    assert (G3 : record_count fresh = x00)
      by (rewrite Hfresh; explicit_name Hn He; reflexivity).
    assert (G4 : allocation_map fresh = repeat x00 16)
      by (rewrite Hfresh; explicit_name Hn He; reflexivity).
    assert (G5 : dir_slot (save_FCB (wfp st) (llf + 1) fresh) (llf + 1) = fresh)
      by (apply dir_slot_save_FCB; apply init_FCB_buf_length).
    repeat split; assumption.
Qed.

Lemma write_in_32768_bytes_witness :
  exists r,
    write_in SignedChar blank_image A_TXT (file_of_size 32768) = Returns r
    /\ printed r = Done
    /\ directory_writes (io r)
       = [(0, directory_entry (bytes_of_string "A       ") (bytes_of_string "TXT")
                              x01 x80 (block_numbers 1 16));
          (0, init_FCB_buf (bytes_of_string "A       ") (bytes_of_string "TXT"))].
Proof.
  destruct (write_in_32768_bytes SignedChar blank_image A_TXT (file_of_size 32768)
              (bytes_of_string "A       ") (bytes_of_string "TXT") (-1) 1)
    as (r & H1 & H2 & _ & H4 & _).
  - vm_compute. reflexivity.
  - vm_compute. reflexivity.
  - vm_compute. reflexivity.
  - vm_compute. reflexivity.
  - vm_compute. reflexivity.
  - exists r. repeat split; assumption.
Defined.

(** C9 as stated fails where the capacity test fires: on a disk whose last
    directory slot is live the 32768-byte file A.TXT is abandoned after 128
    records with "Not enough capacity."; the entry buffer is saved neither
    inside nor after the loop. *)
Lemma write_in_32768_bytes_directory_full :
  let r := write_in SignedChar last_slot_live_image A_TXT (file_of_size 32768) in
  printed_of r = Some NotEnoughCapacity
  /\ directory_writes (io_of r) = []
  /\ length (record_writes (io_of r)) = 128%nat.
Proof. cbv zeta. repeat split; vm_compute; reflexivity. Qed.

(** ** Runs of any length *)

(** [write_in] returns whenever the file name has a '.': the loop ends
    within the [S (length src)] turns it is given. *)
Theorem write_in_returns (ck : char_signedness) (img : image)
      (cpm_filename src name extension : list byte) :
  separate_name cpm_filename = Returns (name, extension) ->
  exists r, write_in ck img cpm_filename src = Returns r.
Proof.
  intros Hsep. unfold write_in. rewrite Hsep.
  destruct (negb _); [eauto|].
  destruct (write_loop_returns (S (length src)) name extension
              (last_living_FCB_num (same_name_check ck name extension img))
              (last_living_block_num (same_name_check ck name extension img))
              (start_state name extension img) src) as (m & st & H); [lia|].
  rewrite H. destruct m; eauto.
Qed.

Lemma write_in_returns_witness :
  exists r, write_in SignedChar blank_image A_TXT (file_of_size 300) = Returns r.
Proof.
  apply (write_in_returns SignedChar blank_image A_TXT (file_of_size 300)
           (bytes_of_string "A       ") (bytes_of_string "TXT")).
  vm_compute. reflexivity.
Defined.

(** The image a run leaves is the initial image with the journal applied. *)
Lemma write_in_image_replay (ck : char_signedness) (img : image)
      (cpm_filename src : list byte) (r : run) :
  write_in ck img cpm_filename src = Returns r ->
  image_after r = replay img (io r).
Proof.
  unfold write_in. destruct (separate_name cpm_filename) as [[name extension]| |];
    try discriminate.
  destruct (negb _).
  - intros H. injection H as <-. reflexivity.
  - destruct (write_loop _ _ _ _ _ _ _) as [[m st]| |] eqn:E; try discriminate.
    apply write_loop_replay with (img := img) in E; [|reflexivity].
    destruct m; intros H; injection H as <-; cbn [image_after io]; [exact E|].
    unfold replay in *. rewrite fold_left_app. cbn [fold_left exec_event]. now rewrite E.
Qed.

Lemma journal_shape_S (llf k : Z) :
  0 <= k ->
  journal_shape llf (k + 1)
  = journal_shape llf k
    ++ RecordWrite :: (if k + 1 =? 256 then [DirectoryWrite (llf + 1)] else []).
Proof.
  intros Hk. unfold journal_shape.
  destruct (Z.eqb_spec (k + 1) 256) as [E|E].
  - replace k with 255 by lia. reflexivity.
  - destruct (Z.leb_spec 256 k) as [Hge|Hlt].
    + destruct (Z.leb_spec 256 (k + 1)); [|lia].
      rewrite !Z.min_r by lia.
      replace (Z.to_nat (k + 1 - 256)) with (S (Z.to_nat (k - 256))) by lia.
      cbn [repeat]. rewrite repeat_cons. now rewrite !app_assoc.
    + destruct (Z.leb_spec 256 (k + 1)); [lia|].
      rewrite !Z.min_l by lia.
      replace (Z.to_nat (k + 1 - 256)) with 0%nat by lia.
      replace (Z.to_nat (k - 256)) with 0%nat by lia.
      replace (Z.to_nat (k + 1)) with (S (Z.to_nat k)) by lia.
      change (repeat RecordWrite 0) with (@nil event_kind).
      rewrite !app_nil_r. cbn [repeat]. now rewrite repeat_cons.
Qed.

Lemma shape_inv_step (name extension : list byte) (llf llb : Z) (src : list byte)
      (k : nat) (st : write_state) :
  shape_inv llf k st ->
  shape_inv llf (S k)
            (loop_body name extension llf llb (set_record_buff st (record_at src k))).
Proof.
  intros (Hbuf & Hwr & Hused & Hj).
  assert (Hused' : (if Z.rem (Z.of_nat k + 1) 128 =? 0
                    then Z.of_nat k / 128 + 1 else Z.of_nat k / 128)
                   = Z.of_nat (S k) / 128).
  { destruct (Z.eqb_spec (Z.rem (Z.of_nat k + 1) 128) 0); zlia. }
  unfold shape_inv, loop_body, set_record_buff.
  cbn [used_FCBs written_records FCB_buff record_buff journal].
  rewrite Hwr, Hused, Hused'.
  replace (Z.of_nat (S k)) with (Z.of_nat k + 1) by lia.
  rewrite journal_shape_S by lia. unfold BPS.
  destruct (Z.eqb_spec (Z.of_nat k + 1) 256) as [E|E];
    cbn [used_FCBs written_records FCB_buff record_buff journal];
    rewrite !map_app, Hj; cbn [map kind_of].
  - rewrite E. change (Z.rem (256 / 128) 2) with 0. rewrite Z.add_0_r, <- app_assoc.
    repeat split; reflexivity.
  - repeat split; reflexivity.
Qed.

Lemma nth_set_nth (n m : nat) (v d : byte) (l : list byte) :
  (n < length l)%nat ->
  nth m (set_nth n v l) d = if (m =? n)%nat then v else nth m l d.
Proof.
  revert n m. induction l as [|x l IH]; intros n m Hn; [cbn in Hn; lia|].
  destruct n as [|n], m as [|m]; cbn [set_nth nth Nat.eqb]; try reflexivity.
  apply IH. cbn in Hn. lia.
Qed.

Lemma array_get_array_set (l : list byte) (i j : Z) (v : byte) :
  0 <= i < Z.of_nat (length l) -> 0 <= j ->
  array_get (array_set l i v) j = if j =? i then v else array_get l j.
Proof.
  intros Hi Hj. unfold array_get, array_set.
  replace ((0 <=? i) && (i <? Z.of_nat (length l))) with true by lia.
  rewrite nth_set_nth by lia.
  destruct (Nat.eqb_spec (Z.to_nat j) (Z.to_nat i)), (Z.eqb_spec j i); auto; lia.
Qed.

(** C2 as stated fails: while the 16385-byte file A.TXT is written to a
    blank disk, nothing is saved to the directory when 128 records have
    accumulated; the 129 record writes are followed by the one final save. *)
Lemma write_in_no_save_at_128 :
  let r := write_in SignedChar blank_image A_TXT (file_of_size 16385) in
  printed_of r = Some Done
  /\ saved_after_record 128 (io_of r) = false
  /\ map kind_of (io_of r) = repeat RecordWrite 129 ++ [DirectoryWrite 1].
Proof. cbv zeta. repeat split; vm_compute; reflexivity. Qed.

(** The code does save inside the loop, once, after record 256. *)
Lemma write_in_save_at_256 :
  let r := write_in SignedChar blank_image A_TXT (file_of_size 32769) in
  saved_after_record 256 (io_of r) = true
  /\ saved_after_record 128 (io_of r) = false.
Proof. cbv zeta. split; vm_compute; reflexivity. Qed.

(** ** Where the writes land *)

Lemma head_addr_of_FCB_val (i : Z) :
  0 <= i <= 128 -> head_addr_of_FCB i = 16384 + 32 * i.
Proof.
  intros H. unfold head_addr_of_FCB, head_addr_of_data_block.
  change (int_wrap (BPS * SPT * 2 + DATA_BLOCK_SIZE * 0)) with 16384.
  apply int_wrap_small. unfold INT_MIN, INT_MAX. lia.
Qed.

Lemma head_addr_of_record_val (rn : Z) :
  0 <= rn < RPD * num_of_data_blocks -> head_addr_of_record rn = 16384 + 128 * rn.
Proof.
  change (RPD * num_of_data_blocks) with 2432. intros H.
  unfold head_addr_of_record, head_addr_of_data_block, RPD, BPS, SPT, DATA_BLOCK_SIZE.
  rewrite (int_wrap_small (256 * 32 * 2 + 2048 * (rn ÷ 16)))
    by (unfold INT_MIN, INT_MAX; zlia).
  rewrite int_wrap_small by (unfold INT_MIN, INT_MAX; zlia). zlia.
Qed.

(** The file offset of directory slot [i], and of record [rn]. *)
Lemma slot_offset_val (i : Z) :
  0 <= i <= 128 ->
  convert_addr (head_addr_of_FCB i) = 17088 + 32 * i + 16 * ((16384 + 32 * i) / 256).
Proof.
  intros H. rewrite head_addr_of_FCB_val by lia.
  rewrite convert_addr_on_disk by (change disk_size with 327680; lia).
  unfold translate, PREAMBLE_SIZE, HEADER_SIZE, SECTOR_SIZE. lia.
Qed.

Lemma record_offset_val (rn : Z) :
  0 <= rn < RPD * num_of_data_blocks ->
  convert_addr (head_addr_of_record rn)
  = 17088 + 128 * rn + 16 * ((16384 + 128 * rn) / 256).
Proof.
  intros H. rewrite head_addr_of_record_val by lia.
  change (RPD * num_of_data_blocks) with 2432 in H.
  rewrite convert_addr_on_disk by (change disk_size with 327680; lia).
  unfold translate, PREAMBLE_SIZE, HEADER_SIZE, SECTOR_SIZE. lia.
Qed.

Lemma pread_pwrite_disjoint (f : image) (off n : Z) (buf : list byte) (off' : Z) (n' : nat) :
  off' + Z.of_nat n' <= off \/ off + n <= off' ->
  pread (pwrite f off n buf) off' n' = pread f off' n'.
Proof.
  intros H. unfold pread. apply map_ext_in. intros a Ha. apply In_Zrange in Ha.
  unfold pwrite.
  destruct (Z.leb_spec off a), (Z.ltb_spec a (off + n)); cbn [andb]; try reflexivity; lia.
Qed.

(** A record write leaves every slot of the directory as it was. *)
Lemma dir_slot_save_record (fp : image) (rn : Z) (buf : list byte) (i : Z) :
  2 * RPD <= rn < RPD * num_of_data_blocks -> 0 <= i < num_of_FCBs ->
  dir_slot (save_record fp rn buf) i = dir_slot fp i.
Proof.
  change (RPD * num_of_data_blocks) with 2432. change (2 * RPD) with 32.
  change num_of_FCBs with 128. intros Hrn Hi.
  unfold dir_slot, save_record. apply pread_pwrite_disjoint.
  rewrite slot_offset_val, record_offset_val by (change (RPD * num_of_data_blocks) with 2432; lia).
  left. change (Z.of_nat 32) with 32. zlia.
Qed.

(** A directory write leaves the other slots and every record as they were. *)
Lemma dir_slot_save_FCB_other (fp : image) (n : Z) (fcb : list byte) (i : Z) :
  0 <= n < num_of_FCBs -> 0 <= i < num_of_FCBs -> i <> n ->
  dir_slot (save_FCB fp n fcb) i = dir_slot fp i.
Proof.
  change num_of_FCBs with 128. intros Hn Hi Hne.
  unfold dir_slot, save_FCB. apply pread_pwrite_disjoint.
  rewrite !slot_offset_val by lia. change (Z.of_nat 32) with 32. zlia.
Qed.

Lemma record_save_FCB (fp : image) (n : Z) (fcb : list byte) (rn : Z) :
  0 <= n < num_of_FCBs -> 2 * RPD <= rn < RPD * num_of_data_blocks ->
  pread (save_FCB fp n fcb) (convert_addr (head_addr_of_record rn)) 128
  = pread fp (convert_addr (head_addr_of_record rn)) 128.
Proof.
  change (RPD * num_of_data_blocks) with 2432. change (2 * RPD) with 32.
  change num_of_FCBs with 128. intros Hn Hrn.
  unfold save_FCB. apply pread_pwrite_disjoint.
  rewrite slot_offset_val, record_offset_val by (change (RPD * num_of_data_blocks) with 2432; lia).
  right. zlia.
Qed.

Lemma record_save_record_other (fp : image) (rn rn' : Z) (buf : list byte) :
  0 <= rn < RPD * num_of_data_blocks -> 0 <= rn' < RPD * num_of_data_blocks -> rn <> rn' ->
  pread (save_record fp rn buf) (convert_addr (head_addr_of_record rn')) 128
  = pread fp (convert_addr (head_addr_of_record rn')) 128.
Proof.
  intros Hrn Hrn' Hne. unfold save_record. apply pread_pwrite_disjoint.
  rewrite !record_offset_val by lia. change (Z.of_nat 128) with 128. zlia.
Qed.

Lemma record_at_length (src : list byte) (k : nat) : length (record_at src k) = 128%nat.
Proof.
  unfold record_at, init_record_buf.
  rewrite length_app, length_skipn, repeat_length, length_firstn. lia.
Qed.

Lemma record_save_record_same (fp : image) (rn : Z) (src : list byte) (k : nat) :
  pread (save_record fp rn (record_at src k)) (convert_addr (head_addr_of_record rn)) 128
  = record_at src k.
Proof. unfold save_record. apply (pread_pwrite_same _ _ 128), record_at_length. Qed.

Section Replay.

Variables (llb : Z) (src : list byte) (img : image).

Lemma replay_records_S (n : nat) :
  replay img (map (record_event llb src) (seq 0 (S n)))
  = save_record (replay img (map (record_event llb src) (seq 0 n)))
                (RPD * (llb + 1) + Z.of_nat n) (record_at src n).
Proof. unfold replay. now rewrite seq_S, map_app, fold_left_app. Qed.

(** The record writes of a run leave the directory as it was ... *)
Lemma replay_records_slot (n : nat) (i : Z) :
  1 <= llb -> RPD * (llb + 1) + Z.of_nat n <= RPD * num_of_data_blocks ->
  0 <= i < num_of_FCBs ->
  dir_slot (replay img (map (record_event llb src) (seq 0 n))) i = dir_slot img i.
Proof.
  intros Hllb. induction n as [|n IH]; intros Hn Hi; [reflexivity|].
  rewrite replay_records_S, dir_slot_save_record; [apply IH; lia | | exact Hi].
  unfold RPD in *. lia.
Qed.

(** ... and each record holds what was read for it. *)
Lemma replay_records_record (n k : nat) :
  1 <= llb -> RPD * (llb + 1) + Z.of_nat n <= RPD * num_of_data_blocks ->
  (k < n)%nat ->
  pread (replay img (map (record_event llb src) (seq 0 n)))
        (convert_addr (head_addr_of_record (RPD * (llb + 1) + Z.of_nat k))) 128
  = record_at src k.
Proof.
  intros Hllb. induction n as [|n IH]; intros Hn Hk; [lia|].
  rewrite replay_records_S.
  destruct (Nat.eq_dec k n) as [->|Hne]; [apply record_save_record_same|].
  rewrite record_save_record_other; [apply IH; lia | | |]; unfold RPD in *; lia.
Qed.

End Replay.

(** ** Lists over ranges *)

Lemma map_seq_shift {A : Type} (f : nat -> A) (a n : nat) :
  map f (seq a n) = map (fun k => f (a + k)%nat) (seq 0 n).
Proof.
  revert f a. induction n as [|n IH]; intros f a; [reflexivity|].
  cbn [seq map]. rewrite Nat.add_0_r. f_equal.
  rewrite (IH f (S a)), (IH (fun k => f (a + k)%nat) 1%nat).
  apply map_ext. intros k. f_equal. lia.
Qed.

Lemma Zrange_app (lo : Z) (a b : nat) :
  Zrange lo (a + b) = Zrange lo a ++ Zrange (lo + Z.of_nat a) b.
Proof.
  unfold Zrange. rewrite seq_app, map_app. f_equal.
  rewrite map_seq_shift. apply map_ext. intros k. lia.
Qed.

Lemma flat_map_nil {A B : Type} (h : A -> list B) (l : list A) :
  (forall x, In x l -> h x = []) -> flat_map h l = [].
Proof.
  induction l as [|x l IH]; intros H; [reflexivity|].
  cbn [flat_map]. rewrite (H x) by now left. apply IH. intros y Hy. apply H. now right.
Qed.

(** A range on which [h] is empty but at [s]. *)
Lemma flat_map_single {B : Type} (h : Z -> list B) (n : nat) (s : Z) :
  0 <= s < Z.of_nat n ->
  (forall i, 0 <= i < Z.of_nat n -> i <> s -> h i = []) ->
  flat_map h (Zrange 0 n) = h s.
Proof.
  intros Hs H.
  replace n with (Z.to_nat s + (1 + (n - Z.to_nat s - 1)))%nat by lia.
  rewrite !Zrange_app, !flat_map_app.
  rewrite flat_map_nil by (intros i Hi; apply In_Zrange in Hi; apply H; lia).
  rewrite (flat_map_nil h (Zrange _ (n - Z.to_nat s - 1)))
    by (intros i Hi; apply In_Zrange in Hi; apply H; lia).
  cbn [Zrange seq map flat_map app]. rewrite !app_nil_r. f_equal. lia.
Qed.

Lemma filter_map_flat {A B : Type} (P : B -> bool) (g : A -> B) (l : list A) :
  filter P (map g l) = flat_map (fun i => if P (g i) then [g i] else []) l.
Proof.
  induction l as [|x l IH]; [reflexivity|].
  cbn [map filter flat_map]. rewrite IH. now destruct (P (g x)).
Qed.

(** ** The entry chain after a write *)

Lemma scan_no_name (ck : char_signedness) (name extension : list byte) (fp : image) (i : Z) :
  same_name (same_name_check ck name extension fp) = 0 ->
  0 <= i < num_of_FCBs ->
  is_live (dir_slot fp i) && is_name_ext (dir_slot fp i) name extension = false.
Proof.
  intros Hs Hi.
  destruct (is_live (dir_slot fp i)) eqn:E1; [|reflexivity].
  destruct (is_name_ext (dir_slot fp i) name extension) eqn:E2; [|reflexivity].
  exfalso.
  assert (H1 : same_name (same_name_check ck name extension fp) = 1).
  { unfold same_name_check. apply scan_finds_name with (i := i); [|exact E1|exact E2].
    apply In_Zrange. change (Z.of_nat (Z.to_nat num_of_FCBs)) with num_of_FCBs. lia. }
  rewrite H1 in Hs. discriminate Hs.
Qed.

Lemma entry_chain_single (fp : image) (name extension entry : list byte) (slot : Z) :
  0 <= slot < num_of_FCBs ->
  dir_slot fp slot = entry ->
  is_live entry = true ->
  is_name_ext entry name extension = true ->
  (forall i, 0 <= i < num_of_FCBs -> i <> slot ->
             is_live (dir_slot fp i) && is_name_ext (dir_slot fp i) name extension = false) ->
  entry_chain fp name extension = [entry].
Proof.
  intros Hslot Hentry Hlive Hname Hothers. unfold entry_chain.
  rewrite filter_map_flat.
  rewrite (flat_map_single _ (Z.to_nat num_of_FCBs) slot).
  - rewrite Hentry, Hlive, Hname. cbn [andb].
    rewrite (flat_map_single _ 256 (byte_val (extent_index entry))).
    + cbn [filter]. now rewrite Z.eqb_refl.
    + pose proof (byte_val_range (extent_index entry)). lia.
    + intros i _ Hi. cbn [filter].
      destruct (Z.eqb_spec (byte_val (extent_index entry)) i); [congruence | reflexivity].
  - change (Z.of_nat (Z.to_nat num_of_FCBs)) with num_of_FCBs. lia.
  - change (Z.of_nat (Z.to_nat num_of_FCBs)) with num_of_FCBs.
    intros i Hi Hne. now rewrite Hothers.
Qed.

Lemma is_name_ext_fields (fcb name extension : list byte) :
  entry_name fcb = name -> entry_extension fcb = extension ->
  is_name_ext fcb name extension = true.
Proof. intros <- <-. apply is_name_ext_own. Qed.

Lemma entry_after_header (name extension : list byte) (llb k : Z) :
  length name = 8%nat -> length extension = 3%nat ->
  is_live (entry_after name extension llb k) = true
  /\ is_name_ext (entry_after name extension llb k) name extension = true.
Proof.
  intros Hn He. split.
  - reflexivity.
  - apply is_name_ext_fields; explicit_name Hn He; reflexivity.
Qed.

(** ** The blocks an entry references *)

Lemma init_FCB_buf_tail (name extension : list byte) (j : Z) :
  12 <= j < 32 -> array_get (init_FCB_buf name extension) j = x00.
Proof.
  intros H. assert (Hin : In j (Zrange 12 20)) by (apply In_Zrange; lia).
  vm_compute in Hin.
  repeat (destruct Hin as [<-|Hin]; [reflexivity|]). contradiction.
Qed.

Lemma filter_all {A : Type} (P : A -> bool) (l : list A) :
  (forall x, In x l -> P x = true) -> filter P l = l.
Proof.
  induction l as [|x l IH]; intros H; [reflexivity|].
  cbn [filter]. rewrite (H x) by now left. f_equal. apply IH. intros y Hy. apply H. now right.
Qed.

Lemma filter_none {A : Type} (P : A -> bool) (l : list A) :
  (forall x, In x l -> P x = false) -> filter P l = [].
Proof.
  induction l as [|x l IH]; intros H; [reflexivity|].
  cbn [filter]. rewrite (H x) by now left. apply IH. intros y Hy. apply H. now right.
Qed.

(** The allocation map of the buffer after [k] records lists the blocks
    [llb + 1 .. llb + ceil(k / 16)]. *)
Lemma referenced_blocks_entry_after (name extension : list byte) (llb k : Z) :
  0 <= k <= 256 -> 1 <= llb -> llb + (k + 15) / 16 < 256 ->
  referenced_blocks (entry_after name extension llb k)
  = Zrange (llb + 1) (Z.to_nat ((k + 15) / 16)).
Proof.
  intros Hk Hllb Hmax. unfold referenced_blocks, allocation_map.
  set (w := Z.to_nat ((k + 15) / 16)).
  assert (Hw : Z.of_nat w = (k + 15) / 16) by (unfold w; zlia).
  assert (Hw16 : (w <= 16)%nat) by zlia.
  replace (Zrange 16 16) with (Zrange 16 (w + (16 - w))) by (f_equal; lia).
  rewrite Zrange_app, !map_app, filter_app.
  set (E := entry_after name extension llb k).
  assert (Hget : forall j, 16 <= j < 32 ->
                           byte_val (array_get E j)
                           = if j <? 16 + (k + 15) / 16 then llb + (j - 15) else 0).
  { intros j Hj. unfold E, entry_after.
    rewrite array_get_map_Zrange by lia. unfold entry_fn.
    destruct (Z.eqb_spec (0 + j) 12); [lia|].
    destruct (Z.eqb_spec (0 + j) 15); [lia|].
    destruct (Z.leb_spec 16 (0 + j)); [|lia].
    destruct (Z.ltb_spec (0 + j) (16 + (k + 15) / 16)), (Z.ltb_spec j (16 + (k + 15) / 16));
      try lia; cbn [andb].
    - rewrite byte_val_int_to_char. zlia.
    - now rewrite init_FCB_buf_tail by lia. }
  assert (H1 : filter (fun b => negb (b =? 0)) (map byte_val (map (array_get E) (Zrange 16 w)))
               = Zrange (llb + 1) w).
  { rewrite filter_all.
    - rewrite map_map. unfold Zrange. rewrite !map_map. apply map_ext_in.
      intros a Ha. apply in_seq in Ha. rewrite Hget by lia.
      destruct (Z.ltb_spec (16 + Z.of_nat a) (16 + (k + 15) / 16)); lia.
    - intros v Hv. rewrite map_map in Hv. apply in_map_iff in Hv.
      destruct Hv as (j & <- & Hj). apply In_Zrange in Hj. rewrite Hget by lia.
      destruct (Z.ltb_spec j (16 + (k + 15) / 16)); [|lia].
      apply negb_true_iff, Z.eqb_neq. lia. }
  assert (H2 : filter (fun b => negb (b =? 0))
                      (map byte_val (map (array_get E) (Zrange (16 + Z.of_nat w) (16 - w))))
               = []).
  { apply filter_none. intros v Hv. rewrite map_map in Hv. apply in_map_iff in Hv.
    destruct Hv as (j & <- & Hj). apply In_Zrange in Hj. rewrite Hget by lia.
    destruct (Z.ltb_spec j (16 + (k + 15) / 16)); [lia | reflexivity]. }
  rewrite H1, H2. apply app_nil_r.
Qed.

(** The records of consecutive blocks are consecutive records. *)
Lemma block_records_flat (fp : image) (b0 : Z) (w : nat) :
  flat_map (block_records fp) (Zrange b0 w)
  = map (fun k => pread fp (convert_addr (head_addr_of_record (RPD * b0 + k))) 128)
        (Zrange 0 (16 * w)).
Proof.
  induction w as [|w IH]; [reflexivity|].
  rewrite Zrange_S, flat_map_app, IH. cbn [flat_map]. rewrite app_nil_r.
  replace (16 * S w)%nat with (16 * w + 16)%nat by lia.
  rewrite Zrange_app, map_app. f_equal.
  unfold block_records. change (Z.to_nat RPD) with 16%nat.
  unfold Zrange. rewrite !map_map. apply map_ext. intros a.
  do 3 f_equal. unfold RPD. lia.
Qed.

(** ** The records of a file *)

Lemma skipn_repeat {A : Type} (x : A) (n m : nat) :
  skipn n (repeat x m) = repeat x (m - n).
Proof.
  revert m. induction n as [|n IH]; intros [|m]; cbn [skipn repeat Nat.sub]; auto.
Qed.

Lemma record_at_S (src : list byte) (k : nat) :
  record_at src (S k) = record_at (skipn 128 src) k.
Proof.
  unfold record_at. rewrite skipn_skipn.
  now replace (128 * k + 128)%nat with (128 * S k)%nat by lia.
Qed.

(** The records in order are the file padded with 1A. *)
Lemma concat_records (n : nat) (src : list byte) :
  Z.of_nat n = num_records src ->
  concat (map (record_at src) (seq 0 n)) = padded src.
Proof.
  revert src. induction n as [|n IH]; intros src Hn; unfold num_records in Hn.
  - assert (length src = 0%nat) as E by zlia.
    destruct src; [reflexivity | discriminate E].
  - cbn [seq map concat].
    rewrite <- seq_shift, map_map.
    rewrite (map_ext _ (record_at (skipn 128 src))) by (intros k; apply record_at_S).
    rewrite IH by (unfold num_records; rewrite length_skipn; zlia).
    unfold record_at, padded, init_record_buf.
    change (skipn (128 * 0) src) with src.
    rewrite skipn_repeat, length_firstn, length_skipn.
    destruct (Nat.le_gt_cases (length src) 128) as [Hle|Hgt].
    + rewrite firstn_all2, skipn_all2 by lia. cbn [app].
      replace (Z.to_nat ((- Z.of_nat (length src - 128)) mod 128)) with 0%nat by zlia.
      cbn [repeat]. rewrite app_nil_r. do 2 f_equal. zlia.
    + replace (128 - Nat.min 128 (length src))%nat with 0%nat by lia.
      cbn [repeat]. rewrite app_nil_r, app_assoc, firstn_skipn. do 2 f_equal. zlia.
Qed.

(** ** Round trip for files inside one entry *)

(** A completed write of at most 255 records whose directory slot lies
    inside the directory can be read back: the records referenced by the
    entry chain start with the file, padded with 1A to a record boundary. *)
Theorem write_in_reads_back (ck : char_signedness) (img : image)
        (cpm_filename src name extension : list byte) (llf llb : Z) :
  separate_name cpm_filename = Returns (name, extension) ->
  same_name_check ck name extension img
  = {| same_name := 0; last_living_FCB_num := llf; last_living_block_num := llb |} ->
  num_records src <= 255 ->
  llf + 1 + num_records src / 128 < num_of_FCBs ->
  RPD * (llb + 1) + num_records src <= RPD * num_of_data_blocks ->
  exists r,
    write_in ck img cpm_filename src = Returns r
    /\ printed r = Done
    /\ reads_back (image_after r) name extension src.
Proof.
  intros Hsep Hscan Hmax Hslot Hcap.
  destruct (separate_name_lengths _ _ _ Hsep) as [Hn He].
  pose proof (last_living_FCB_num_range ck name extension img) as Hllf.
  pose proof (first_writable_block ck name extension img) as Hllb.
  assert (Hsame : same_name (same_name_check ck name extension img) = 0)
    by now rewrite Hscan.
  rewrite Hscan in Hllf, Hllb. cbn [last_living_FCB_num last_living_block_num] in Hllf, Hllb.
  change num_of_FCBs with 128 in *. change (RPD * num_of_data_blocks) with 2432 in *.
  unfold RPD in *.
  set (N := Z.to_nat (num_records src)).
  assert (HN : Z.of_nat N = num_records src) by (unfold N, num_records; zlia).
  rewrite <- HN in Hmax, Hslot, Hcap.
  destruct (write_in_small ck img cpm_filename src name extension llf llb N Hsep Hscan HN)
    as (st & Hrun & Hinv).
  - lia.
  - unfold enough_capacity. change num_of_FCBs with 128.
    change (RPD * num_of_data_blocks) with 2432. unfold RPD. zlia.
  - destruct Hinv as (_ & _ & _ & Hused & Hfcb & Hj).
    destruct (Nat.eqb_spec N 256) as [|_]; [lia|].
    rewrite app_nil_r in Hj.
    set (slot := llf + 1 + Z.rem (used_FCBs st) 2) in *.
    assert (Hslot' : 0 <= slot < 128) by (unfold slot; rewrite Hused; zlia).
    set (E := entry_after name extension llb (Z.of_nat N)) in *.
    set (R := replay img (map (record_event llb src) (seq 0 N))).
    eexists. split; [exact Hrun|]. split; [reflexivity|].
    rewrite (write_in_image_replay _ _ _ _ _ Hrun). cbn [io].
    rewrite Hj, Hfcb. unfold replay. rewrite fold_left_app. cbn [fold_left exec_event].
    fold (replay img (map (record_event llb src) (seq 0 N))). fold R.
    unfold reads_back, read_back.
    destruct (entry_after_header name extension llb (Z.of_nat N) Hn He) as [Hlive Hname].
    rewrite (entry_chain_single (save_FCB R slot E) name extension E slot).
    + cbn [flat_map]. rewrite app_nil_r.
      unfold E. rewrite referenced_blocks_entry_after by zlia.
      rewrite block_records_flat.
      set (w := Z.to_nat ((Z.of_nat N + 15) / 16)).
      replace (16 * w)%nat with (N + (16 * w - N))%nat by (unfold w; zlia).
      rewrite Zrange_app, map_app, concat_app.
      assert (Hrec : map (fun k => pread (save_FCB R slot E)
                                         (convert_addr (head_addr_of_record (RPD * (llb + 1) + k)))
                                         128)
                         (Zrange 0 N)
                     = map (record_at src) (seq 0 N)).
      { unfold Zrange. rewrite map_map. apply map_ext_in. intros k Hk. apply in_seq in Hk.
        rewrite Z.add_0_l.
        rewrite record_save_FCB
          by (change num_of_FCBs with 128; change (RPD * num_of_data_blocks) with 2432;
              unfold RPD; lia).
        apply replay_records_record;
          [lia | change (RPD * num_of_data_blocks) with 2432; unfold RPD; lia | lia]. }
      fold E. rewrite Hrec, (concat_records N src HN).
      rewrite firstn_app, firstn_all, Nat.sub_diag. cbn [firstn]. apply app_nil_r.
    + change num_of_FCBs with 128. exact Hslot'.
    + apply dir_slot_save_FCB. apply entry_after_length.
    + exact Hlive.
    + exact Hname.
    + intros i Hi Hne.
      rewrite dir_slot_save_FCB_other by (change num_of_FCBs with 128 in *; lia).
      unfold R. rewrite replay_records_slot
        by (try (change (RPD * num_of_data_blocks) with 2432; unfold RPD); lia).
      now apply scan_no_name with (ck := ck).
Qed.

Lemma write_in_reads_back_witness :
  exists r,
    write_in SignedChar blank_image A_TXT (counting_file 16385) = Returns r
    /\ printed r = Done
    /\ reads_back (image_after r) (bytes_of_string "A       ") (bytes_of_string "TXT")
                  (counting_file 16385).
Proof.
  apply (write_in_reads_back SignedChar blank_image A_TXT (counting_file 16385)
           (bytes_of_string "A       ") (bytes_of_string "TXT") (-1) 1).
  - vm_compute. reflexivity.
  - vm_compute. reflexivity.
  - vm_compute. discriminate.
  - vm_compute. reflexivity.
  - vm_compute. discriminate.
Defined.

(** ** A file of 257 records *)

(** C5 on the code: the 32769-byte file A.TXT (257 records, not a multiple
    of 128 bytes) is written to a blank disk and "Done." is printed.  Both
    saves of the entry buffer that follow record 256 go to slot 0, so the
    entry of the first 256 records is overwritten: the directory is left
    with a single entry of the file, which references block 18 only, and
    all the records its entry chain references are 2048 bytes, not the
    32896 of the padded file. *)
Theorem write_in_32769_bytes_loses_first_entry :
  let src := counting_file 32769 in
  let name := bytes_of_string "A       " in
  let extension := bytes_of_string "TXT" in
  let r := write_in SignedChar blank_image A_TXT src in
  printed_of r = Some Done
  /\ Z.of_nat (length src) mod 128 <> 0
  /\ map fst (directory_writes (io_of r)) = [0; 0]
  /\ entry_chain (image_of blank_image r) name extension
     = [directory_entry name extension x02 x01 [x12]]
  /\ flat_map referenced_blocks (entry_chain (image_of blank_image r) name extension) = [18]
  /\ Z.of_nat (length (read_back (image_of blank_image r) name extension)) = 2048
  /\ Z.of_nat (length (padded src)) = 32896
  /\ ~ reads_back (image_of blank_image r) name extension src.
Proof.
  cbv zeta.
  assert (L1 : Z.of_nat (length (read_back
                 (image_of blank_image (write_in SignedChar blank_image A_TXT
                                                 (counting_file 32769)))
                 (bytes_of_string "A       ") (bytes_of_string "TXT"))) = 2048)
    by (vm_compute; reflexivity).
  assert (L2 : Z.of_nat (length (padded (counting_file 32769))) = 32896)
    by (vm_compute; reflexivity).
  repeat split; try (vm_compute; reflexivity); try assumption.
  - vm_compute. discriminate.
  - unfold reads_back. intros E. apply (f_equal (@length byte)) in E.
    rewrite length_firstn in E. lia.
Qed.

(** ** The file name in closed form *)

Lemma toupper_val (c : byte) :
  byte_val (toupper c)
  = if (97 <=? byte_val c) && (byte_val c <=? 122) then byte_val c - 32 else byte_val c.
Proof.
  unfold toupper. destruct ((97 <=? byte_val c) && (byte_val c <=? 122)) eqn:E; [|reflexivity].
  rewrite byte_val_int_to_char. pose proof (byte_val_range c). zlia.
Qed.

Lemma byte_val_inj (a b : byte) : byte_val a = byte_val b -> a = b.
Proof. intros H. rewrite <- (int_to_char_byte_val a), <- (int_to_char_byte_val b). now rewrite H. Qed.

Lemma toupper_idem (c : byte) : toupper (toupper c) = toupper c.
Proof.
  apply byte_val_inj. rewrite (toupper_val (toupper c)), toupper_val.
  destruct ((97 <=? byte_val c) && (byte_val c <=? 122)) eqn:E.
  - replace ((97 <=? byte_val c - 32) && (byte_val c - 32 <=? 122)) with false by lia.
    reflexivity.
  - now rewrite E.
Qed.

Lemma toupper_dot (c : byte) : toupper c = dot -> c = dot.
Proof.
  intros H. apply byte_val_inj. apply (f_equal byte_val) in H.
  rewrite toupper_val in H. change (byte_val dot) with 46 in *.
  destruct ((97 <=? byte_val c) && (byte_val c <=? 122)) eqn:E; lia.
Qed.

Lemma toupper_space : toupper space = space.
Proof. reflexivity. Qed.

Lemma copy_toupper_closed (n : nat) (src dst : list byte) :
  (n <= length src)%nat -> (n <= length dst)%nat ->
  copy_toupper n src dst = map toupper (firstn n src) ++ skipn n dst.
Proof.
  revert src dst. induction n as [|n IH]; intros src dst Hs Hd.
  - now destruct src, dst.
  - destruct src as [|c src]; [cbn in Hs; lia|]. destruct dst as [|d dst]; [cbn in Hd; lia|].
    cbn [copy_toupper firstn map skipn app]. f_equal. apply IH; cbn in *; lia.
Qed.

Lemma strrchr_last (stem ext : list byte) (c : byte) :
  ~ In c ext -> strrchr (stem ++ c :: ext) c = Some (length stem).
Proof.
  intros H. induction stem as [|x stem IH].
  - cbn [app strrchr length]. now rewrite strrchr_None, byte_eqb_refl.
  - cbn [app strrchr length]. now rewrite IH.
Qed.

Lemma strrchr_Some (s : list byte) (c : byte) (p : nat) :
  strrchr s c = Some p ->
  s = firstn p s ++ c :: skipn (S p) s /\ ~ In c (skipn (S p) s).
Proof.
  revert p. induction s as [|x s IH]; intros p H; [discriminate|].
  cbn [strrchr] in H. destruct (strrchr s c) as [k|] eqn:E.
  - injection H as <-. destruct (IH k eq_refl) as [H1 H2].
    cbn [firstn skipn app]. split; [now f_equal | exact H2].
  - destruct (Byte.eqb x c) eqn:Ex; [|discriminate]. injection H as <-.
    apply Byte.byte_dec_bl in Ex. subst x. cbn [firstn skipn app]. split; [reflexivity|].
    intros Hin. revert E. clear -Hin. induction s as [|y s IH]; [contradiction|].
    cbn [strrchr]. destruct (strrchr s c) eqn:E; [discriminate|].
    destruct Hin as [->|Hin]; [now rewrite byte_eqb_refl | now apply IH in Hin].
Qed.

Lemma separate_name_closed_form (stem ext : list byte) :
  ~ In dot ext ->
  separate_name (stem ++ dot :: ext)
  = Returns (map toupper (firstn 8 stem) ++ repeat space (8 - length stem),
             map toupper (firstn 3 ext) ++ repeat space (3 - length ext)).
Proof.
  intros H. unfold separate_name. rewrite strrchr_last by exact H.
  replace (skipn (S (length stem)) (stem ++ dot :: ext)) with ext.
  2:{ change (S (length stem)) with (1 + length stem)%nat.
      rewrite <- skipn_skipn, skipn_app, skipn_all, Nat.sub_diag. reflexivity. }
  cbv zeta. f_equal. f_equal.
  - rewrite length_app. cbn [length].
    replace (Z.of_nat (length stem + S (length ext)) - Z.of_nat (length ext) - 1)
      with (Z.of_nat (length stem)) by lia.
    destruct (Z.ltb_spec (Z.of_nat (length stem)) 8).
    + rewrite (firstn_all2 (n := 8) stem) by lia.
      rewrite Nat2Z.id, copy_toupper_closed by (rewrite ?length_app, ?repeat_length; lia).
      rewrite skipn_repeat, firstn_app, Nat.sub_diag, firstn_all.
      change (firstn 0 (dot :: ext)) with (@nil byte). now rewrite app_nil_r.
    + change (Z.to_nat 8) with 8%nat.
      rewrite copy_toupper_closed by (rewrite ?length_app, ?repeat_length; lia).
      rewrite firstn_app. replace (8 - length stem)%nat with 0%nat by lia.
      change (firstn 0 (dot :: ext)) with (@nil byte).
      change (skipn 8 (repeat space 8)) with (@nil byte).
      change (repeat space 0) with (@nil byte). now rewrite !app_nil_r.
  - destruct (Z.ltb_spec (Z.of_nat (length ext)) 3).
    + rewrite (firstn_all2 (n := 3) ext) by lia.
      rewrite Nat2Z.id, copy_toupper_closed by (rewrite ?repeat_length; lia).
      now rewrite skipn_repeat, firstn_all.
    + change (Z.to_nat 3) with 3%nat.
      rewrite copy_toupper_closed by (rewrite ?repeat_length; lia).
      replace (3 - length ext)%nat with 0%nat by lia. reflexivity.
Qed.

(** [separate_name] on "stem.ext", [ext] without '.': the first 8 characters
    of the stem and the first 3 of the extension, in upper case, each padded
    with blanks to exactly 8 and 3 bytes; whatever precedes the last '.' is
    the stem, longer stems and extensions are cut. *)
Theorem separate_name_stem_ext (stem ext : list byte) :
  ~ In dot ext ->
  let name := map toupper (firstn 8 stem) ++ repeat space (8 - length stem) in
  let extension := map toupper (firstn 3 ext) ++ repeat space (3 - length ext) in
  separate_name (stem ++ dot :: ext) = Returns (name, extension)
  /\ length name = 8%nat /\ length extension = 3%nat.
Proof.
  intros H name extension.
  assert (E : separate_name (stem ++ dot :: ext) = Returns (name, extension))
    by now apply separate_name_closed_form.
  split; [exact E|]. exact (separate_name_lengths _ _ _ E).
Qed.

Lemma separate_name_stem_ext_witness :
  ~ In dot (bytes_of_string "gz")
  /\ separate_name (bytes_of_string "archive.tar" ++ dot :: bytes_of_string "gz")
     = Returns (bytes_of_string "ARCHIVE.", bytes_of_string "GZ ").
Proof.
  assert (H : ~ In dot (bytes_of_string "gz")).
  { cbv. intros H. repeat (destruct H as [H|H]; [discriminate H|]). exact H. }
  split; [exact H|].
  exact (proj1 (separate_name_stem_ext (bytes_of_string "archive.tar")
                                       (bytes_of_string "gz") H)).
Defined.

Lemma separate_name_split (cpm_filename name extension : list byte) :
  separate_name cpm_filename = Returns (name, extension) ->
  exists stem ext,
    cpm_filename = stem ++ dot :: ext /\ ~ In dot ext
    /\ name = map toupper (firstn 8 stem) ++ repeat space (8 - length stem)
    /\ extension = map toupper (firstn 3 ext) ++ repeat space (3 - length ext).
Proof.
  intros H. destruct (strrchr cpm_filename dot) as [p|] eqn:E.
  - destruct (strrchr_Some _ _ _ E) as [Hsplit Hno].
    exists (firstn p cpm_filename), (skipn (S p) cpm_filename).
    rewrite Hsplit in H. rewrite separate_name_closed_form in H by exact Hno.
    injection H as <- <-. repeat split; assumption.
  - unfold separate_name in H. rewrite E in H. discriminate H.
Qed.

Lemma In_firstn {A : Type} (n : nat) (l : list A) (x : A) : In x (firstn n l) -> In x l.
Proof.
  intros H. rewrite <- (firstn_skipn n l). apply in_or_app. now left.
Qed.

Lemma Forall_toupper_fixed_map (l : list byte) :
  Forall (fun c => toupper c = c) (map toupper l).
Proof. induction l; constructor; auto using toupper_idem. Qed.

Lemma Forall_toupper_fixed_blanks (n : nat) :
  Forall (fun c => toupper c = c) (repeat space n).
Proof. induction n; constructor; auto. Qed.

Lemma map_fixed (l : list byte) :
  Forall (fun c => toupper c = c) l -> map toupper l = l.
Proof. induction 1 as [|c l Hc _ IH]; [reflexivity|]. cbn [map]. now rewrite Hc, IH. Qed.

(** The encoding is a fixed point of itself: encoding "NAME.EXT" built
    from an encoded name and extension gives them back. *)
Theorem separate_name_idempotent (cpm_filename name extension : list byte) :
  separate_name cpm_filename = Returns (name, extension) ->
  separate_name (name ++ dot :: extension) = Returns (name, extension).
Proof.
  intros H. destruct (separate_name_lengths _ _ _ H) as [Hn He].
  destruct (separate_name_split _ _ _ H) as (stem & ext & _ & Hno & Hname & Hext).
  assert (Fn : Forall (fun c => toupper c = c) name).
  { rewrite Hname. apply Forall_app. split;
      [apply Forall_toupper_fixed_map | apply Forall_toupper_fixed_blanks]. }
  assert (Fe : Forall (fun c => toupper c = c) extension).
  { rewrite Hext. apply Forall_app. split;
      [apply Forall_toupper_fixed_map | apply Forall_toupper_fixed_blanks]. }
  assert (Hdot : ~ In dot extension).
  { rewrite Hext. intros Hin. apply in_app_or in Hin. destruct Hin as [Hin|Hin].
    - apply in_map_iff in Hin. destruct Hin as (c & Hc & Hin).
      apply toupper_dot in Hc. subst c. apply Hno.
      now apply (In_firstn 3).
    - apply repeat_spec in Hin. discriminate Hin. }
  rewrite separate_name_closed_form by exact Hdot.
  rewrite Hn, He. change (8 - 8)%nat with 0%nat. change (3 - 3)%nat with 0%nat.
  change (repeat space 0) with (@nil byte). rewrite !app_nil_r.
  rewrite <- Hn at 1. rewrite <- He at 1. rewrite !firstn_all.
  now rewrite !map_fixed.
Qed.

Lemma separate_name_idempotent_witness :
  separate_name (bytes_of_string "a.b.c")
  = Returns (bytes_of_string "A.B     ", bytes_of_string "C  ")
  /\ separate_name (bytes_of_string "A.B     " ++ dot :: bytes_of_string "C  ")
     = Returns (bytes_of_string "A.B     ", bytes_of_string "C  ").
Proof.
  assert (H : separate_name (bytes_of_string "a.b.c")
              = Returns (bytes_of_string "A.B     ", bytes_of_string "C  "))
    by (vm_compute; reflexivity).
  split; [exact H|].
  apply (separate_name_idempotent (bytes_of_string "a.b.c") _ _ H).
Defined.

(** ** What the scan finds *)

Lemma array_get_ext (a b : list byte) :
  length a = length b ->
  (forall j, 0 <= j < Z.of_nat (length a) -> array_get a j = array_get b j) ->
  a = b.
Proof.
  intros Hlen H. apply nth_ext with (d := x00) (d' := x00); [exact Hlen|].
  intros k Hk. specialize (H (Z.of_nat k)). unfold array_get in H.
  rewrite Nat2Z.id in H. apply H. lia.
Qed.

Lemma is_name_ext_true (fcb name extension : list byte) :
  length name = 8%nat -> length extension = 3%nat ->
  is_name_ext fcb name extension = true ->
  entry_name fcb = name /\ entry_extension fcb = extension.
Proof.
  intros Hn He H. unfold is_name_ext in H. apply andb_prop in H. destruct H as [H1 H2].
  rewrite forallb_forall in H1, H2. split.
  - apply array_get_ext; unfold entry_name.
    + now rewrite length_map, Zrange_length.
    + rewrite length_map, Zrange_length. intros j Hj.
      rewrite array_get_map_Zrange by lia.
      specialize (H1 (1 + j)). rewrite In_Zrange in H1.
      replace (1 + j - 1) with j in H1 by lia.
      apply Byte.byte_dec_bl, H1. lia.
  - apply array_get_ext; unfold entry_extension.
    + now rewrite length_map, Zrange_length.
    + rewrite length_map, Zrange_length. intros j Hj.
      rewrite array_get_map_Zrange by lia.
      specialize (H2 (9 + j)). rewrite In_Zrange in H2.
      replace (9 + j - 9) with j in H2 by lia.
      apply Byte.byte_dec_bl, H2. lia.
Qed.

Lemma scan_same_name_cases (ck : char_signedness) (name extension : list byte) (fp : image)
      (l : list Z) (s : scan_state) :
  same_name (fold_left (scan_FCB ck name extension fp) l s) = same_name s
  \/ exists i, In i l /\ is_live (dir_slot fp i) = true
               /\ is_name_ext (dir_slot fp i) name extension = true.
Proof.
  revert s. induction l as [|i l IH]; intros s; [now left|].
  cbn [fold_left]. destruct (IH (scan_FCB ck name extension fp s i)) as [E|(j & Hj & H)].
  - rewrite E. unfold scan_FCB. fold (dir_slot fp i). fold (is_live (dir_slot fp i)).
    destruct (is_live (dir_slot fp i)) eqn:E1; [|now left].
    cbn [same_name]. destruct (is_name_ext (dir_slot fp i) name extension) eqn:E2; [|now left].
    right. exists i. repeat split; auto. now left.
  - right. exists j. split; [now right | exact H].
Qed.

(** The scan reports a conflict exactly when some live slot of the
    directory carries the name and the extension; its answer is 0 or 1. *)
Theorem same_name_check_exact (ck : char_signedness) (name extension : list byte) (fp : image) :
  length name = 8%nat -> length extension = 3%nat ->
  (same_name (same_name_check ck name extension fp) = 1
   <-> exists i, 0 <= i < num_of_FCBs
                 /\ is_live (dir_slot fp i) = true
                 /\ entry_name (dir_slot fp i) = name
                 /\ entry_extension (dir_slot fp i) = extension)
  /\ (same_name (same_name_check ck name extension fp) = 0
      \/ same_name (same_name_check ck name extension fp) = 1).
Proof.
  intros Hn He.
  assert (Hcases : same_name (same_name_check ck name extension fp) = 0
                   \/ exists i, In i (Zrange 0 (Z.to_nat num_of_FCBs))
                                /\ is_live (dir_slot fp i) = true
                                /\ is_name_ext (dir_slot fp i) name extension = true).
  { unfold same_name_check. apply scan_same_name_cases. }
  assert (Hfound : forall i, In i (Zrange 0 (Z.to_nat num_of_FCBs)) ->
                             is_live (dir_slot fp i) = true ->
                             is_name_ext (dir_slot fp i) name extension = true ->
                             same_name (same_name_check ck name extension fp) = 1).
  { intros i Hi H1 H2. unfold same_name_check. now apply scan_finds_name with (i := i). }
  split; [split|].
  - intros H1. destruct Hcases as [E|(i & Hi & Hlive & Hname)].
    + rewrite H1 in E. discriminate E.
    + apply In_Zrange in Hi. change (Z.of_nat (Z.to_nat num_of_FCBs)) with num_of_FCBs in Hi.
      destruct (is_name_ext_true _ _ _ Hn He Hname) as [F1 F2].
      exists i. repeat split; auto; lia.
  - intros (i & Hi & Hlive & F1 & F2). apply (Hfound i); auto.
    + apply In_Zrange. change (Z.of_nat (Z.to_nat num_of_FCBs)) with num_of_FCBs. lia.
    + now apply is_name_ext_fields.
  - destruct Hcases as [E|(i & Hi & Hlive & Hname)]; [now left|].
    right. now apply (Hfound i).
Qed.

Lemma same_name_check_exact_witness :
  is_live (dir_slot last_slot_live_image 127) = true
  /\ same_name (same_name_check SignedChar (bytes_of_string "OLD     ")
                                (bytes_of_string "DAT") last_slot_live_image) = 1.
Proof.
  assert (Hl : is_live (dir_slot last_slot_live_image 127) = true) by (vm_compute; reflexivity).
  split; [exact Hl|].
  apply (proj1 (same_name_check_exact SignedChar (bytes_of_string "OLD     ")
                  (bytes_of_string "DAT") last_slot_live_image eq_refl eq_refl)).
  exists 127. repeat split; try exact Hl; try (vm_compute; reflexivity).
  vm_compute. discriminate.
Defined.

Lemma scan_last_live (ck : char_signedness) (name extension : list byte) (fp : image) (n : nat) :
  let llf := last_living_FCB_num
               (fold_left (scan_FCB ck name extension fp) (Zrange 0 n) scan_start) in
  (llf = -1 /\ forall i, 0 <= i < Z.of_nat n -> is_live (dir_slot fp i) = false)
  \/ (0 <= llf < Z.of_nat n /\ is_live (dir_slot fp llf) = true
      /\ forall i, llf < i < Z.of_nat n -> is_live (dir_slot fp i) = false).
Proof.
  induction n as [|n IH]; cbv zeta in *.
  - left. split; [reflexivity | intros i Hi; lia].
  - rewrite Zrange_S, fold_left_app. cbn [fold_left]. rewrite Z.add_0_l.
    set (s := fold_left (scan_FCB ck name extension fp) (Zrange 0 n) scan_start) in *.
    unfold scan_FCB. fold (dir_slot fp (Z.of_nat n)). fold (is_live (dir_slot fp (Z.of_nat n))).
    destruct (is_live (dir_slot fp (Z.of_nat n))) eqn:E.
    + cbn [last_living_FCB_num]. right.
      split; [lia|]. split; [first [exact E | reflexivity]|]. intros i Hi. lia.
    + destruct IH as [[H1 H2]|(H1 & H2 & H3)].
      * left. split; [exact H1|]. intros i Hi.
        destruct (Z.eq_dec i (Z.of_nat n)) as [->|]; [exact E | apply H2; lia].
      * right. split; [lia|]. split; [exact H2|]. intros i Hi.
        destruct (Z.eq_dec i (Z.of_nat n)) as [->|]; [exact E | apply H3; lia].
Qed.

(** The scan returns the index of the last live slot of the directory,
    and -1 when no slot is live. *)
Theorem same_name_check_last_live (ck : char_signedness) (name extension : list byte)
        (fp : image) :
  let llf := last_living_FCB_num (same_name_check ck name extension fp) in
  (llf = -1 /\ forall i, 0 <= i < num_of_FCBs -> is_live (dir_slot fp i) = false)
  \/ (0 <= llf < num_of_FCBs /\ is_live (dir_slot fp llf) = true
      /\ forall i, llf < i < num_of_FCBs -> is_live (dir_slot fp i) = false).
Proof.
  pose proof (scan_last_live ck name extension fp (Z.to_nat num_of_FCBs)) as H.
  cbv zeta in *. change (Z.of_nat (Z.to_nat num_of_FCBs)) with num_of_FCBs in H.
  exact H.
Qed.

(** On a directory without a live slot the scan returns its initial
    values: no conflict, no last entry, block 1. *)
Theorem same_name_check_no_live_slot (ck : char_signedness) (name extension : list byte)
        (fp : image) :
  (forall i, 0 <= i < num_of_FCBs -> is_live (dir_slot fp i) = false) ->
  same_name_check ck name extension fp
  = {| same_name := 0; last_living_FCB_num := -1; last_living_block_num := 1 |}.
Proof.
  intros H. unfold same_name_check. fold scan_start.
  assert (G : forall l s, (forall i, In i l -> is_live (dir_slot fp i) = false) ->
                          fold_left (scan_FCB ck name extension fp) l s = s).
  { induction l as [|i l IH]; intros s Hl; [reflexivity|].
    cbn [fold_left]. rewrite <- (IH s) at 2 by (intros j Hj; apply Hl; now right).
    f_equal. unfold scan_FCB. fold (dir_slot fp i). fold (is_live (dir_slot fp i)).
    now rewrite (Hl i) by now left. }
  apply G. intros i Hi. apply In_Zrange in Hi.
  change (Z.of_nat (Z.to_nat num_of_FCBs)) with num_of_FCBs in Hi. apply H. lia.
Qed.

Lemma same_name_check_no_live_slot_witness :
  (forall i, 0 <= i < num_of_FCBs -> is_live (dir_slot blank_image i) = false)
  /\ same_name_check SignedChar (bytes_of_string "A       ") (bytes_of_string "TXT") blank_image
     = {| same_name := 0; last_living_FCB_num := -1; last_living_block_num := 1 |}.
Proof.
  assert (H : forall i, 0 <= i < num_of_FCBs -> is_live (dir_slot blank_image i) = false)
    by (intros i _; reflexivity).
  split; [exact H|].
  apply (same_name_check_no_live_slot SignedChar _ _ blank_image H).
Defined.

(** ** The layout of the image file *)

Lemma convert_addr_payload (a : Z) :
  0 <= a <= last_translatable ->
  convert_addr a = 43 * 16 + (16 + 256) * (a / 256) + 16 + a mod 256.
Proof.
  intros H. rewrite convert_addr_exact by exact H.
  unfold translate, PREAMBLE_SIZE, HEADER_SIZE, SECTOR_SIZE. zlia.
Qed.

(** [convert_addr] is a bijection from the disk addresses to the offsets
    of the image file outside the preamble and the sector headers:
    [disk_addr] undoes it, it undoes [disk_addr], and it is increasing. *)
Theorem convert_addr_bijective :
  (forall a, 0 <= a <= last_translatable ->
             sector_header (convert_addr a) = false
             /\ disk_addr (convert_addr a) = a)
  /\ (forall off, sector_header off = false -> off <= INT_MAX ->
                  0 <= disk_addr off <= last_translatable
                  /\ convert_addr (disk_addr off) = off)
  /\ (forall a b, 0 <= a -> a < b -> b <= last_translatable ->
                  convert_addr a < convert_addr b).
Proof.
  split; [|split].
  - intros a Ha. rewrite convert_addr_payload by exact Ha.
    unfold sector_header, disk_addr. split.
    + apply orb_false_intro; [apply Z.ltb_ge | apply Z.ltb_ge]; zlia.
    + zlia.
  - intros off Hoff Hmax. unfold sector_header in Hoff.
    apply orb_false_elim in Hoff. destruct Hoff as [H1 H2].
    apply Z.ltb_ge in H1, H2. unfold INT_MAX in Hmax.
    assert (Hr : 0 <= disk_addr off <= last_translatable)
      by (unfold disk_addr, last_translatable; zlia).
    split; [exact Hr|]. rewrite convert_addr_payload by exact Hr.
    unfold disk_addr. zlia.
  - intros a b Ha Hab Hb. rewrite !convert_addr_payload by lia. zlia.
Qed.

Lemma head_addr_of_data_block_val (b : Z) :
  0 <= b <= num_of_data_blocks -> head_addr_of_data_block b = 16384 + 2048 * b.
Proof.
  change num_of_data_blocks with 152. intros H.
  unfold head_addr_of_data_block, BPS, SPT, DATA_BLOCK_SIZE.
  apply int_wrap_small. unfold INT_MIN, INT_MAX. lia.
Qed.

(** The directory and the data blocks tile the disk after the two system
    tracks: the 128 slots fill the blocks 0 and 1 exactly, the 16 records
    of a block fill it exactly, and block 151 ends where the disk ends. *)
Theorem disk_layout :
  (forall i, 0 <= i <= num_of_FCBs ->
             head_addr_of_FCB i = head_addr_of_data_block 0 + 32 * i)
  /\ head_addr_of_FCB num_of_FCBs = head_addr_of_data_block 2
  /\ (forall b r, 0 <= b < num_of_data_blocks -> 0 <= r < RPD ->
                  head_addr_of_record (RPD * b + r) = head_addr_of_data_block b + 128 * r)
  /\ (forall b, 0 <= b < num_of_data_blocks ->
                head_addr_of_data_block b + 128 * RPD = head_addr_of_data_block (b + 1))
  /\ head_addr_of_data_block num_of_data_blocks = disk_size
  /\ head_addr_of_data_block 0 = BPS * SPT * 2.
Proof.
  repeat split.
  - intros i Hi. change num_of_FCBs with 128 in Hi.
    rewrite head_addr_of_FCB_val by lia. reflexivity.
  - intros b r Hb Hr. change num_of_data_blocks with 152 in Hb. unfold RPD in *.
    rewrite head_addr_of_record_val
      by (change (RPD * num_of_data_blocks) with 2432; lia).
    rewrite head_addr_of_data_block_val by (change num_of_data_blocks with 152; lia). lia.
  - intros b Hb. change num_of_data_blocks with 152 in Hb. unfold RPD.
    rewrite !head_addr_of_data_block_val by (change num_of_data_blocks with 152; lia). lia.
Qed.

(** ** Where a run may write *)

Section LoopInvariant.

Variables (name extension : list byte) (llf llb : Z).
Variable P : write_state -> Prop.

Hypothesis P_read : forall st rfp,
    P st ->
    P (set_record_buff st (firstn 128 rfp ++ skipn (length (firstn 128 rfp)) (record_buff st))).

Hypothesis P_body : forall st,
    P st -> capacity_exceeded llf llb st = false -> P (loop_body name extension llf llb st).

Lemma write_loop_invariant (fuel : nat) (st st' : write_state) (rfp : list byte)
      (m : option message) :
  P st -> write_loop fuel name extension llf llb st rfp = Returns (m, st') -> P st'.
Proof.
  revert st rfp. induction fuel as [|fuel IH]; intros st rfp HP; [discriminate|].
  rewrite write_loop_S.
  destruct (Z.of_nat (length (firstn 128 rfp)) =? 0).
  - intros H. injection H as <- <-. exact HP.
  - cbv zeta. destruct (capacity_exceeded _ _ _) eqn:E.
    + intros H. injection H as <- <-. now apply P_read.
    + apply IH. apply P_body; [now apply P_read | exact E].
Qed.

End LoopInvariant.

Lemma bounds_inv_read (llf llb : Z) (st : write_state) (rfp : list byte) :
  bounds_inv llf llb st ->
  bounds_inv llf llb
    (set_record_buff st (firstn 128 rfp ++ skipn (length (firstn 128 rfp)) (record_buff st))).
Proof.
  intros (H1 & H2 & H3 & H4 & H5). unfold bounds_inv, set_record_buff.
  cbn [used_FCBs written_records FCB_buff record_buff journal].
  repeat split; auto. rewrite length_app, length_skipn, length_firstn, H4. lia.
Qed.

Lemma bounds_inv_body (name extension : list byte) (llf llb : Z) (st : write_state) :
  bounds_inv llf llb st -> capacity_exceeded llf llb st = false ->
  bounds_inv llf llb (loop_body name extension llf llb st).
Proof.
  intros (H1 & H2 & H3 & H4 & H5) Hcap.
  unfold capacity_exceeded in Hcap. apply orb_false_elim in Hcap.
  destruct Hcap as [_ Hcap]. apply Z.leb_gt in Hcap.
  assert (Hused : 0 <= (if Z.rem (written_records st + 1) 128 =? 0
                        then used_FCBs st + 1 else used_FCBs st))
    by (destruct (Z.rem (written_records st + 1) 128 =? 0); lia).
  assert (Hrec : event_in_bounds llf llb
                   (SaveRecord (RPD * (llb + 1) + written_records st) (record_buff st))).
  { unfold event_in_bounds. split; [|exact H4]. unfold RPD in *. lia. }
  unfold bounds_inv, loop_body.
  destruct (written_records st + 1 =? BPS);
    cbn [used_FCBs written_records FCB_buff record_buff journal];
    (split; [exact Hused|]); (split; [lia|]).
  - split; [apply init_FCB_buf_length|]. split; [reflexivity|].
    apply Forall_app. split; [apply Forall_app; split; [exact H5 | now constructor]|].
    constructor; [|constructor]. cbn. rewrite !array_set_length. split; [|exact H3].
    set (u := if Z.rem (written_records st + 1) 128 =? 0
              then used_FCBs st + 1 else used_FCBs st) in *.
    zlia.
  - split; [now rewrite !array_set_length|]. split; [reflexivity|].
    apply Forall_app. split; [exact H5 | now constructor].
Qed.

Lemma write_in_journal_bounds (ck : char_signedness) (img : image)
        (cpm_filename src name extension : list byte) :
  separate_name cpm_filename = Returns (name, extension) ->
  exists r,
    write_in ck img cpm_filename src = Returns r
    /\ Forall (event_in_bounds
                 (last_living_FCB_num (same_name_check ck name extension img))
                 (last_living_block_num (same_name_check ck name extension img)))
              (io r).
Proof.
  intros Hsep. unfold write_in. rewrite Hsep.
  set (sc := same_name_check ck name extension img).
  destruct (negb _); [eexists; split; [reflexivity | constructor]|].
  destruct (write_loop_returns (S (length src)) name extension
              (last_living_FCB_num sc) (last_living_block_num sc)
              (start_state name extension img) src) as (m & st & H); [lia|].
  rewrite H.
  assert (Hinv : bounds_inv (last_living_FCB_num sc) (last_living_block_num sc) st).
  { refine (write_loop_invariant name extension (last_living_FCB_num sc)
              (last_living_block_num sc) _
              (bounds_inv_read _ _) (bounds_inv_body name extension _ _) _ _ _ _ _ _ H).
    unfold bounds_inv, start_state. cbn [used_FCBs written_records FCB_buff record_buff journal].
    repeat split; try lia. constructor. }
  destruct Hinv as (H1 & H2 & H3 & H4 & H5).
  destruct m as [m|]; eexists; (split; [reflexivity|]); cbn [io]; [exact H5|].
  apply Forall_app. split; [exact H5|]. constructor; [|constructor].
  cbn. split; [zlia | exact H3].
Qed.

(** Every run leaves the image with exactly the writes of its journal
    applied, and each of them is a whole record between the first record of
    block [llb + 1] and the end of the data area, or a whole entry in slot
    [llf + 1] or [llf + 2]. *)
Theorem write_in_io_in_bounds (ck : char_signedness) (img : image)
        (cpm_filename src name extension : list byte) :
  separate_name cpm_filename = Returns (name, extension) ->
  exists r,
    write_in ck img cpm_filename src = Returns r
    /\ image_after r = replay img (io r)
    /\ Forall (event_in_bounds
                 (last_living_FCB_num (same_name_check ck name extension img))
                 (last_living_block_num (same_name_check ck name extension img)))
              (io r).
Proof.
  intros Hsep.
  destruct (write_in_journal_bounds ck img cpm_filename src name extension Hsep)
    as (r & Hr & Hb).
  exists r. split; [exact Hr|]. split; [|exact Hb].
  now apply write_in_image_replay with (ck := ck) (cpm_filename := cpm_filename) (src := src).
Qed.

Lemma write_in_io_in_bounds_witness :
  exists r,
    write_in SignedChar nearly_full_image A_TXT (file_of_size 70000) = Returns r
    /\ image_after r = replay nearly_full_image (io r)
    /\ Forall (event_in_bounds
                 (last_living_FCB_num
                    (same_name_check SignedChar (bytes_of_string "A       ")
                                     (bytes_of_string "TXT") nearly_full_image))
                 (last_living_block_num
                    (same_name_check SignedChar (bytes_of_string "A       ")
                                     (bytes_of_string "TXT") nearly_full_image)))
              (io r).
Proof.
  apply (write_in_io_in_bounds SignedChar nearly_full_image A_TXT (file_of_size 70000)
           (bytes_of_string "A       ") (bytes_of_string "TXT")).
  vm_compute. reflexivity.
Defined.

(** ** What a run leaves alone *)

Lemma head_addr_of_FCB_val' (i : Z) :
  0 <= i <= 200 -> head_addr_of_FCB i = 16384 + 32 * i.
Proof.
  intros H. unfold head_addr_of_FCB, head_addr_of_data_block.
  change (int_wrap (BPS * SPT * 2 + DATA_BLOCK_SIZE * 0)) with 16384.
  apply int_wrap_small. unfold INT_MIN, INT_MAX. lia.
Qed.

(** The bytes an in-bounds write changes are no header bytes. *)
Lemma exec_event_header (llf llb : Z) (fp : image) (e : io_event) (a : Z) :
  -1 <= llf < num_of_FCBs -> 1 <= llb ->
  event_in_bounds llf llb e -> sector_header a = true ->
  exec_event fp e a = fp a.
Proof.
  change num_of_FCBs with 128. intros Hllf Hllb He Ha.
  unfold sector_header in Ha. apply orb_true_iff in Ha.
  rewrite !Z.ltb_lt in Ha.
  destruct e as [rn buf|n buf]; cbn [exec_event event_in_bounds] in *.
  - destruct He as [Hrn _]. change (RPD * num_of_data_blocks) with 2432 in Hrn.
    unfold RPD in Hrn. unfold save_record, pwrite.
    rewrite head_addr_of_record_val by (change (RPD * num_of_data_blocks) with 2432; lia).
    rewrite convert_addr_payload by (unfold last_translatable; lia).
    destruct (Z.leb_spec (43 * 16 + (16 + 256) * ((16384 + 128 * rn) / 256) + 16
                          + (16384 + 128 * rn) mod 256) a);
      destruct (Z.ltb_spec a (43 * 16 + (16 + 256) * ((16384 + 128 * rn) / 256) + 16
                              + (16384 + 128 * rn) mod 256 + 128));
      cbn [andb]; try reflexivity.
    exfalso. zlia.
  - destruct He as [Hn _]. unfold save_FCB, pwrite.
    rewrite head_addr_of_FCB_val' by lia.
    rewrite convert_addr_payload by (unfold last_translatable; lia).
    destruct (Z.leb_spec (43 * 16 + (16 + 256) * ((16384 + 32 * n) / 256) + 16
                          + (16384 + 32 * n) mod 256) a);
      destruct (Z.ltb_spec a (43 * 16 + (16 + 256) * ((16384 + 32 * n) / 256) + 16
                              + (16384 + 32 * n) mod 256 + 32));
      cbn [andb]; try reflexivity.
    exfalso. zlia.
Qed.

Lemma replay_preserves {A : Type} (obs : image -> A) (j : list io_event) (img : image) :
  (forall fp e, In e j -> obs (exec_event fp e) = obs fp) ->
  obs (replay img j) = obs img.
Proof.
  revert img. induction j as [|e j IH]; intros img H; [reflexivity|].
  unfold replay. cbn [fold_left]. fold (replay (exec_event img e) j).
  rewrite IH by (intros fp e' He'; apply H; now right).
  apply H. now left.
Qed.

(** No run writes into the preamble of the image file or into a sector
    header. *)
Theorem write_in_spares_headers (ck : char_signedness) (img : image)
        (cpm_filename src name extension : list byte) :
  separate_name cpm_filename = Returns (name, extension) ->
  exists r,
    write_in ck img cpm_filename src = Returns r
    /\ forall a, sector_header a = true -> image_after r a = img a.
Proof.
  intros Hsep.
  destruct (write_in_journal_bounds ck img cpm_filename src name extension Hsep)
    as (r & Hr & Hb).
  exists r. split; [exact Hr|]. intros a Ha.
  rewrite (write_in_image_replay _ _ _ _ _ Hr).
  apply (replay_preserves (fun f => f a)). intros fp e He.
  rewrite Forall_forall in Hb.
  apply exec_event_header
    with (llf := last_living_FCB_num (same_name_check ck name extension img))
         (llb := last_living_block_num (same_name_check ck name extension img)); auto.
  - apply last_living_FCB_num_range.
  - pose proof (first_writable_block ck name extension img). lia.
Qed.

Lemma write_in_spares_headers_witness :
  exists r,
    write_in SignedChar blank_image A_TXT (file_of_size 70000) = Returns r
    /\ forall a, sector_header a = true -> image_after r a = blank_image a.
Proof.
  apply (write_in_spares_headers SignedChar blank_image A_TXT (file_of_size 70000)
           (bytes_of_string "A       ") (bytes_of_string "TXT")).
  vm_compute. reflexivity.
Defined.

Lemma exec_event_slot (llf llb : Z) (fp : image) (e : io_event) (i : Z) :
  -1 <= llf -> llf + 2 < num_of_FCBs -> 1 <= llb ->
  event_in_bounds llf llb e ->
  0 <= i < num_of_FCBs -> i <> llf + 1 -> i <> llf + 2 ->
  dir_slot (exec_event fp e) i = dir_slot fp i.
Proof.
  intros H1 H2 H3 He Hi Hn1 Hn2.
  destruct e as [rn buf|n buf]; cbn [exec_event event_in_bounds] in *.
  - apply dir_slot_save_record; [|exact Hi]. unfold RPD in *. lia.
  - apply dir_slot_save_FCB_other; [|exact Hi|]; lia.
Qed.

Lemma exec_event_old_record (llf llb : Z) (fp : image) (e : io_event) (rn : Z) :
  -1 <= llf -> llf + 2 < num_of_FCBs -> 1 <= llb ->
  event_in_bounds llf llb e ->
  2 * RPD <= rn < RPD * (llb + 1) -> rn < RPD * num_of_data_blocks ->
  pread (exec_event fp e) (convert_addr (head_addr_of_record rn)) 128
  = pread fp (convert_addr (head_addr_of_record rn)) 128.
Proof.
  intros H1 H2 H3 He Hrn Hrn'.
  destruct e as [rn' buf|n buf]; cbn [exec_event event_in_bounds] in *.
  - apply record_save_record_other; unfold RPD in *; lia.
  - apply record_save_FCB; [lia|]. unfold RPD in *. lia.
Qed.

(** While two slots are free after the last live one, no run changes any
    other slot of the directory (so none of the live entries) nor any
    record of the blocks 2 .. [llb] already in use. *)
Theorem write_in_preserves_existing (ck : char_signedness) (img : image)
        (cpm_filename src name extension : list byte) :
  separate_name cpm_filename = Returns (name, extension) ->
  let llf := last_living_FCB_num (same_name_check ck name extension img) in
  let llb := last_living_block_num (same_name_check ck name extension img) in
  llf + 2 < num_of_FCBs ->
  exists r,
    write_in ck img cpm_filename src = Returns r
    /\ (forall i, 0 <= i < num_of_FCBs -> i <> llf + 1 -> i <> llf + 2 ->
                  dir_slot (image_after r) i = dir_slot img i)
    /\ (forall rn, 2 * RPD <= rn < RPD * (llb + 1) -> rn < RPD * num_of_data_blocks ->
                   pread (image_after r) (convert_addr (head_addr_of_record rn)) 128
                   = pread img (convert_addr (head_addr_of_record rn)) 128).
Proof.
  intros Hsep llf llb Hfree.
  destruct (write_in_journal_bounds ck img cpm_filename src name extension Hsep)
    as (r & Hr & Hb).
  fold llf llb in Hb. rewrite Forall_forall in Hb.
  assert (Hllf : -1 <= llf) by apply last_living_FCB_num_range.
  assert (Hllb : 1 <= llb)
    by (pose proof (first_writable_block ck name extension img); unfold llb; lia).
  exists r. split; [exact Hr|].
  rewrite (write_in_image_replay _ _ _ _ _ Hr). split.
  - intros i Hi Hn1 Hn2. apply (replay_preserves (fun f => dir_slot f i)).
    intros fp e He. apply exec_event_slot with (llf := llf) (llb := llb); auto.
  - intros rn Hrn Hrn'.
    apply (replay_preserves
             (fun f => pread f (convert_addr (head_addr_of_record rn)) 128)).
    intros fp e He. apply exec_event_old_record with (llf := llf) (llb := llb); auto.
Qed.

Lemma write_in_preserves_existing_witness :
  exists r,
    write_in UnsignedChar nearly_full_image A_TXT (file_of_size 70000) = Returns r
    /\ dir_slot (image_after r) 0 = dir_slot nearly_full_image 0.
Proof.
  destruct (write_in_preserves_existing UnsignedChar nearly_full_image A_TXT
              (file_of_size 70000) (bytes_of_string "A       ") (bytes_of_string "TXT"))
    as (r & Hr & Hslots & _).
  - vm_compute. reflexivity.
  - vm_compute. reflexivity.
  - exists r. split; [exact Hr|].
    apply Hslots;
      [vm_compute; split; [discriminate | reflexivity]
      | vm_compute; discriminate | vm_compute; discriminate].
Defined.

(** ** Capacity *)

Lemma records_only_app (a b : list io_event) :
  records_only (a ++ b) = records_only a ++ records_only b.
Proof. apply filter_app. Qed.

Lemma records_inv_step (name extension : list byte) (llf llb : Z) (src : list byte)
      (k : nat) (st : write_state) :
  records_inv llf llb src k st ->
  records_inv llf llb src (S k)
              (loop_body name extension llf llb (set_record_buff st (record_at src k))).
Proof.
  intros (Hbuf & Hwr & Hused & Hrec & Hshape).
  destruct (shape_inv_step name extension llf llb src k st) as (G1 & G2 & G3 & G4);
    [repeat split; assumption|].
  repeat split; try assumption.
  unfold loop_body, set_record_buff.
  cbn [used_FCBs written_records FCB_buff record_buff journal wfp].
  rewrite Hwr.
  destruct (Z.of_nat k + 1 =? BPS); cbn [journal];
    rewrite !records_only_app, Hrec; cbn [records_only filter];
    rewrite ?app_nil_r, seq_S, map_app; reflexivity.
Qed.

Lemma enough_capacity_allowed (llf llb n : Z) :
  0 <= n -> (enough_capacity llf llb n <-> n <= records_allowed llf llb).
Proof.
  intros Hn. unfold enough_capacity, records_allowed.
  change num_of_FCBs with 128. change (RPD * num_of_data_blocks) with 2432. unfold RPD.
  split.
  - intros [->|[H1 H2]]; zlia.
  - intros H. destruct (Z.eq_dec n 0) as [->|Hne]; [now left | right; zlia].
Qed.

Section LoopAbort.

Variables (name extension : list byte) (llf llb : Z) (src : list byte).
Variable Inv : nat -> write_state -> Prop.
Variables N K : nat.

Hypothesis N_records : Z.of_nat N = num_records src.

Hypothesis Inv_counters : forall k st,
    Inv k st ->
    record_buff st = init_record_buf
    /\ written_records st = Z.of_nat k
    /\ used_FCBs st = Z.of_nat k / 128.

Hypothesis Inv_step : forall k st,
    (k < N)%nat -> Inv k st ->
    Inv (S k) (loop_body name extension llf llb (set_record_buff st (record_at src k))).

(** The file has more than [K] records, the capacity tests let [K] records
    through and refuse the next one. *)
Hypothesis more_records : (K < N)%nat.
Hypothesis capacity : enough_capacity llf llb (Z.of_nat K).
Hypothesis refusal :
  num_of_FCBs <= llf + Z.of_nat K / 128
  \/ RPD * num_of_data_blocks <= RPD * (llb + 1) + Z.of_nat K.

Lemma write_loop_abort (fuel k : nat) (st : write_state) :
  (k <= K)%nat -> Inv k st ->
  (length (skipn (128 * k) src) < fuel)%nat ->
  exists st',
    write_loop fuel name extension llf llb st (skipn (128 * k) src)
    = Returns (Some NotEnoughCapacity, set_record_buff st' (record_at src K))
    /\ Inv K st'.
Proof.
  revert k st. induction fuel as [|fuel IH]; intros k st Hk HI Hfuel; [lia|].
  destruct (Inv_counters k st HI) as (Hbuf & Hwr & Hused).
  unfold num_records in N_records.
  rewrite write_loop_S. rewrite length_skipn in Hfuel.
  assert (Hlt : (128 * k < length src)%nat) by zlia.
  rewrite length_firstn, length_skipn.
  destruct (Z.eqb_spec (Z.of_nat (Nat.min 128 (length src - 128 * k))) 0); [lia|].
  cbv zeta. rewrite Hbuf.
  replace (firstn 128 (skipn (128 * k) src)
           ++ skipn (Nat.min 128 (length src - 128 * k)) init_record_buf)
    with (record_at src k)
    by (unfold record_at; now rewrite length_firstn, length_skipn).
  destruct (Nat.eq_dec k K) as [->|Hne].
  - assert (Hcap : capacity_exceeded llf llb (set_record_buff st (record_at src K)) = true).
    { unfold capacity_exceeded, set_record_buff. cbn [used_FCBs written_records].
      rewrite Hwr, Hused. apply orb_true_iff. rewrite !Z.leb_le. exact refusal. }
    rewrite Hcap. eauto.
  - assert (Hcap : capacity_exceeded llf llb (set_record_buff st (record_at src k)) = false).
    { unfold capacity_exceeded, set_record_buff. cbn [used_FCBs written_records].
      rewrite Hwr, Hused. destruct capacity as [C0|[C1 C2]]; [lia|].
      apply orb_false_intro; apply Z.leb_gt; zlia. }
    rewrite Hcap. rewrite skipn_skipn.
    replace (128 + 128 * k)%nat with (128 * S k)%nat by lia.
    apply IH; [lia | apply Inv_step; [lia | exact HI] | rewrite length_skipn; lia].
Qed.

End LoopAbort.

Lemma records_inv_start (name extension : list byte) (llf llb : Z) (src : list byte)
      (img : image) :
  records_inv llf llb src 0 (start_state name extension img).
Proof. unfold records_inv, start_state. cbn. repeat split. Qed.

(** A file that fits: the run ends with "Done", every record was written,
    in order. *)
Lemma write_in_completed (ck : char_signedness) (img : image)
      (cpm_filename src name extension : list byte) (llf llb : Z) :
  separate_name cpm_filename = Returns (name, extension) ->
  same_name_check ck name extension img
  = {| same_name := 0; last_living_FCB_num := llf; last_living_block_num := llb |} ->
  num_records src <= records_allowed llf llb ->
  exists r,
    write_in ck img cpm_filename src = Returns r
    /\ printed r = Done
    /\ records_only (io r) = map (record_event llb src) (seq 0 (Z.to_nat (num_records src)))
    /\ map kind_of (io r)
       = journal_shape llf (num_records src)
         ++ [DirectoryWrite (llf + 1 + Z.rem (num_records src / 128) 2)].
Proof.
  intros Hsep Hscan Hfit.
  assert (HN : Z.of_nat (Z.to_nat (num_records src)) = num_records src)
    by (unfold num_records; zlia).
  destruct (write_loop_rule name extension llf llb src (records_inv llf llb src)
              (Z.to_nat (num_records src)) HN)
    with (fuel := S (length src)) (k := 0%nat) (st := start_state name extension img)
    as (st & Hrun & Hinv).
  - intros k st (Hb & Hw & Hu & _). auto.
  - intros k st _. apply records_inv_step.
  - rewrite HN. apply enough_capacity_allowed; [lia | exact Hfit].
  - lia.
  - apply records_inv_start.
  - change (128 * 0)%nat with 0%nat. change (skipn 0 src) with src. lia.
  - change (128 * 0)%nat with 0%nat in Hrun. change (skipn 0 src) with src in Hrun.
    destruct Hinv as (_ & _ & Hused & Hrec & Hshape). rewrite HN in Hused, Hshape.
    eexists. split.
    + unfold write_in. rewrite Hsep, Hscan.
      cbn [same_name last_living_FCB_num last_living_block_num Z.eqb negb].
      rewrite Hrun. reflexivity.
    + cbn [printed io]. split; [reflexivity|]. split.
      * rewrite records_only_app, Hrec. cbn [records_only filter]. apply app_nil_r.
      * rewrite map_app, Hshape, Hused. reflexivity.
Qed.

(** A file that does not fit: the run stops with "Not enough capacity"
    after exactly [records_allowed] records; no entry is saved after the
    loop. *)
Lemma write_in_aborted (ck : char_signedness) (img : image)
      (cpm_filename src name extension : list byte) (llf llb : Z) :
  separate_name cpm_filename = Returns (name, extension) ->
  same_name_check ck name extension img
  = {| same_name := 0; last_living_FCB_num := llf; last_living_block_num := llb |} ->
  records_allowed llf llb < num_records src ->
  exists r,
    write_in ck img cpm_filename src = Returns r
    /\ printed r = NotEnoughCapacity
    /\ records_only (io r)
       = map (record_event llb src) (seq 0 (Z.to_nat (records_allowed llf llb)))
    /\ map kind_of (io r) = journal_shape llf (records_allowed llf llb).
Proof.
  intros Hsep Hscan Hover.
  assert (HN : Z.of_nat (Z.to_nat (num_records src)) = num_records src)
    by (unfold num_records; zlia).
  assert (H0 : 0 <= records_allowed llf llb) by (unfold records_allowed; lia).
  assert (HK : Z.of_nat (Z.to_nat (records_allowed llf llb)) = records_allowed llf llb) by lia.
  destruct (write_loop_abort name extension llf llb src (records_inv llf llb src)
              (Z.to_nat (num_records src)) (Z.to_nat (records_allowed llf llb)) HN)
    with (fuel := S (length src)) (k := 0%nat) (st := start_state name extension img)
    as (st & Hrun & Hinv).
  - intros k st (Hb & Hw & Hu & _). auto.
  - intros k st _. apply records_inv_step.
  - lia.
  - rewrite HK. apply enough_capacity_allowed; lia.
  - rewrite HK. unfold records_allowed in *.
    change num_of_FCBs with 128 in *. change (RPD * num_of_data_blocks) with 2432 in *.
    unfold RPD in *. zlia.
  - lia.
  - apply records_inv_start.
  - change (128 * 0)%nat with 0%nat. change (skipn 0 src) with src. lia.
  - change (128 * 0)%nat with 0%nat in Hrun. change (skipn 0 src) with src in Hrun.
    destruct Hinv as (_ & _ & _ & Hrec & Hshape). rewrite HK in Hshape.
    eexists. split.
    + unfold write_in. rewrite Hsep, Hscan.
      cbn [same_name last_living_FCB_num last_living_block_num Z.eqb negb].
      rewrite Hrun. reflexivity.
    + cbn [printed io set_record_buff journal]. repeat split; assumption.
Qed.

(** [write_in] prints "Done" exactly when the file has at most
    [records_allowed] records; otherwise it prints "Not enough capacity".
    Either way the records written are the first ones of the file, in
    order, as many as both allow. *)
Theorem write_in_capacity (ck : char_signedness) (img : image)
        (cpm_filename src name extension : list byte) (llf llb : Z) :
  separate_name cpm_filename = Returns (name, extension) ->
  same_name_check ck name extension img
  = {| same_name := 0; last_living_FCB_num := llf; last_living_block_num := llb |} ->
  let n := num_records src in
  let cap := records_allowed llf llb in
  exists r,
    write_in ck img cpm_filename src = Returns r
    /\ (printed r = Done <-> n <= cap)
    /\ (printed r = NotEnoughCapacity <-> cap < n)
    /\ records_only (io r) = map (record_event llb src) (seq 0 (Z.to_nat (Z.min n cap)))
    /\ map kind_of (io r)
       = journal_shape llf (Z.min n cap)
         ++ (if n <=? cap then [DirectoryWrite (llf + 1 + Z.rem (n / 128) 2)] else []).
Proof.
  intros Hsep Hscan n cap.
  destruct (Z.leb_spec n cap) as [Hle|Hgt].
  - destruct (write_in_completed ck img cpm_filename src name extension llf llb Hsep Hscan Hle)
      as (r & Hr & Hp & Hrec & Hshape).
    exists r. rewrite Hp. rewrite Z.min_l by exact Hle.
    split; [exact Hr|]. split; [tauto|]. split; [|now split].
    split; [discriminate | fold n cap; lia].
  - destruct (write_in_aborted ck img cpm_filename src name extension llf llb Hsep Hscan Hgt)
      as (r & Hr & Hp & Hrec & Hshape).
    exists r. rewrite Hp. rewrite Z.min_r by lia. rewrite app_nil_r.
    split; [exact Hr|]. split; [|now split].
    split; [discriminate | fold n cap; lia].
Qed.

Lemma write_in_capacity_witness :
  exists r,
    write_in UnsignedChar nearly_full_image A_TXT (file_of_size 70000) = Returns r
    /\ (printed r = Done <-> num_records (file_of_size 70000) <= records_allowed 0 136)
    /\ (printed r = NotEnoughCapacity
        <-> records_allowed 0 136 < num_records (file_of_size 70000))
    /\ records_only (io r)
       = map (record_event 136 (file_of_size 70000))
             (seq 0 (Z.to_nat (Z.min (num_records (file_of_size 70000))
                                     (records_allowed 0 136))))
    /\ map kind_of (io r)
       = journal_shape 0 (Z.min (num_records (file_of_size 70000)) (records_allowed 0 136))
         ++ (if num_records (file_of_size 70000) <=? records_allowed 0 136
             then [DirectoryWrite (0 + 1 + Z.rem (num_records (file_of_size 70000) / 128) 2)]
             else []).
Proof.
  apply (write_in_capacity UnsignedChar nearly_full_image A_TXT (file_of_size 70000)
           (bytes_of_string "A       ") (bytes_of_string "TXT") 0 136);
    vm_compute; reflexivity.
Defined.

(** ** The data area after a run *)

Lemma replay_snoc (img : image) (j : list io_event) (e : io_event) :
  replay img (j ++ [e]) = exec_event (replay img j) e.
Proof. unfold replay. now rewrite fold_left_app. Qed.

Lemma replay_records_only (llf llb : Z) (img : image) (j : list io_event) (rn : Z) :
  -1 <= llf -> llf + 2 < num_of_FCBs -> 1 <= llb ->
  Forall (event_in_bounds llf llb) j ->
  RPD * (llb + 1) <= rn < RPD * num_of_data_blocks ->
  pread (replay img j) (convert_addr (head_addr_of_record rn)) 128
  = pread (replay img (records_only j)) (convert_addr (head_addr_of_record rn)) 128.
Proof.
  intros H1 H2 H3 Hb Hrn. induction j as [|e j IH] using rev_ind; [reflexivity|].
  apply Forall_app in Hb. destruct Hb as [Hj He]. apply Forall_inv in He.
  rewrite records_only_app, replay_snoc.
  destruct e as [rn' buf|n buf]; cbn [records_only filter exec_event event_in_bounds] in *.
  - rewrite replay_snoc. cbn [exec_event]. destruct He as [Hrn' Hlen].
    destruct (Z.eq_dec rn' rn) as [->|Hne].
    + unfold save_record. now rewrite !(pread_pwrite_same _ _ 128) by exact Hlen.
    + rewrite !record_save_record_other by (unfold RPD in *; lia). now apply IH.
  - rewrite app_nil_r. rewrite record_save_FCB by (unfold RPD in *; lia). now apply IH.
Qed.

(** While two slots are free after the last live one, every record the
    run wrote is in the image afterwards, at its place after block [llb];
    if the file fitted, the data area from there on holds the file, padded
    with 1A to a whole record.  This holds for files of any length. *)
Theorem write_in_data_area (ck : char_signedness) (img : image)
        (cpm_filename src name extension : list byte) (llf llb : Z) :
  separate_name cpm_filename = Returns (name, extension) ->
  same_name_check ck name extension img
  = {| same_name := 0; last_living_FCB_num := llf; last_living_block_num := llb |} ->
  llf + 2 < num_of_FCBs ->
  let n := num_records src in
  let cap := records_allowed llf llb in
  exists r,
    write_in ck img cpm_filename src = Returns r
    /\ (forall k : nat,
           Z.of_nat k < Z.min n cap ->
           pread (image_after r)
                 (convert_addr (head_addr_of_record (RPD * (llb + 1) + Z.of_nat k))) 128
           = record_at src k)
    /\ (n <= cap -> data_area (image_after r) (RPD * (llb + 1)) (Z.to_nat n) = padded src).
Proof.
  intros Hsep Hscan Hfree n cap.
  pose proof (last_living_FCB_num_range ck name extension img) as Hllf.
  pose proof (first_writable_block ck name extension img) as Hllb.
  destruct (write_in_journal_bounds ck img cpm_filename src name extension Hsep)
    as (r & Hr & Hb).
  rewrite Hscan in Hllf, Hllb, Hb.
  cbn [last_living_FCB_num last_living_block_num] in Hllf, Hllb, Hb.
  assert (Hrec : records_only (io r)
                 = map (record_event llb src) (seq 0 (Z.to_nat (Z.min n cap)))).
  { destruct (Z.leb_spec n cap) as [Hle|Hgt].
    - destruct (write_in_completed ck img cpm_filename src name extension llf llb
                  Hsep Hscan Hle) as (r' & Hr' & _ & Hrec & _).
      rewrite Hr in Hr'. injection Hr' as <-. now rewrite Z.min_l.
    - destruct (write_in_aborted ck img cpm_filename src name extension llf llb
                  Hsep Hscan Hgt) as (r' & Hr' & _ & Hrec & _).
      rewrite Hr in Hr'. injection Hr' as <-. rewrite Z.min_r by lia. exact Hrec. }
  assert (Hk : forall k : nat,
             Z.of_nat k < Z.min n cap ->
             pread (image_after r)
                   (convert_addr (head_addr_of_record (RPD * (llb + 1) + Z.of_nat k))) 128
             = record_at src k).
  { intros k Hlt.
    assert (Hcap : RPD * (llb + 1) + Z.min n cap <= RPD * num_of_data_blocks).
    { unfold cap, records_allowed in *. change num_of_FCBs with 128 in *.
      change (RPD * num_of_data_blocks) with 2432 in *. unfold RPD in *. lia. }
    rewrite (write_in_image_replay _ _ _ _ _ Hr).
    rewrite (replay_records_only llf llb) by (auto; try lia).
    rewrite Hrec. apply replay_records_record; [lia | lia | lia]. }
  exists r. split; [exact Hr|]. split; [exact Hk|].
  intros Hle. unfold data_area.
  assert (HN : Z.of_nat (Z.to_nat n) = num_records src) by (unfold n, num_records; zlia).
  rewrite <- (concat_records (Z.to_nat n) src HN). f_equal.
  apply map_ext_in. intros k Hin. apply in_seq in Hin. apply Hk. lia.
Qed.

Lemma write_in_data_area_witness :
  exists r,
    write_in SignedChar blank_image A_TXT (file_of_size 70000) = Returns r
    /\ (forall k : nat,
           Z.of_nat k < Z.min (num_records (file_of_size 70000)) (records_allowed (-1) 1) ->
           pread (image_after r)
                 (convert_addr (head_addr_of_record (RPD * (1 + 1) + Z.of_nat k))) 128
           = record_at (file_of_size 70000) k)
    /\ (num_records (file_of_size 70000) <= records_allowed (-1) 1 ->
        data_area (image_after r) (RPD * (1 + 1)) (Z.to_nat (num_records (file_of_size 70000)))
        = padded (file_of_size 70000)).
Proof.
  apply (write_in_data_area SignedChar blank_image A_TXT (file_of_size 70000)
           (bytes_of_string "A       ") (bytes_of_string "TXT") (-1) 1);
    vm_compute; reflexivity.
Defined.

(** ** A full directory *)

(** When the last directory slot is live, a file of fewer than 128 records
    is written and reported as done, but its entry is saved past the end
    of the directory: no slot changes, and the entry lies on the first 32
    bytes of data block 2. *)
Theorem write_in_directory_overrun (ck : char_signedness) (img : image)
        (cpm_filename src name extension : list byte) (llb : Z) :
  separate_name cpm_filename = Returns (name, extension) ->
  same_name_check ck name extension img
  = {| same_name := 0; last_living_FCB_num := num_of_FCBs - 1;
       last_living_block_num := llb |} ->
  num_records src < 128 ->
  RPD * (llb + 1) + num_records src <= RPD * num_of_data_blocks ->
  let entry := entry_after name extension llb (num_records src) in
  exists r,
    write_in ck img cpm_filename src = Returns r
    /\ printed r = Done
    /\ directory_writes (io r) = [(num_of_FCBs, entry)]
    /\ (forall i, 0 <= i < num_of_FCBs -> dir_slot (image_after r) i = dir_slot img i)
    /\ pread (image_after r) (convert_addr (head_addr_of_data_block 2)) 32 = entry.
Proof.
  intros Hsep Hscan Hmax Hcap entry.
  pose proof (first_writable_block ck name extension img) as Hllb.
  rewrite Hscan in Hllb. cbn [last_living_block_num] in Hllb.
  set (N := Z.to_nat (num_records src)).
  assert (HN : Z.of_nat N = num_records src) by (unfold N, num_records; zlia).
  unfold entry. rewrite <- HN in Hmax, Hcap |- *.
  destruct (write_in_small ck img cpm_filename src name extension (num_of_FCBs - 1) llb N
              Hsep Hscan HN) as (st & Hrun & Hinv).
  - lia.
  - unfold enough_capacity. change num_of_FCBs with 128 in *.
    change (RPD * num_of_data_blocks) with 2432 in *. unfold RPD in *. zlia.
  - destruct Hinv as (_ & _ & _ & Hused & Hfcb & Hj).
    destruct (Nat.eqb_spec N 256) as [|_]; [lia|].
    rewrite app_nil_r in Hj.
    assert (Hslot : num_of_FCBs - 1 + 1 + Z.rem (used_FCBs st) 2 = num_of_FCBs)
      by (rewrite Hused; zlia).
    rewrite Hslot, Hfcb, Hj in Hrun.
    set (E := entry_after name extension llb (Z.of_nat N)) in *.
    pose proof (write_in_image_replay _ _ _ _ _ Hrun) as Himg.
    cbn [image_after io] in Himg. rewrite replay_snoc in Himg. cbn [exec_event] in Himg.
    eexists. split; [exact Hrun|]. cbn [printed io image_after]. rewrite Himg.
    split; [reflexivity|]. split; [|split].
    + rewrite directory_writes_app, directory_writes_records. reflexivity.
    + intros i Hi. change num_of_FCBs with 128 in *.
      transitivity (dir_slot (replay img (map (record_event llb src) (seq 0 N))) i).
      * unfold dir_slot, save_FCB. apply pread_pwrite_disjoint.
        rewrite !slot_offset_val by lia. change (Z.of_nat 32) with 32. left. zlia.
      * apply replay_records_slot;
          [lia | change (RPD * num_of_data_blocks) with 2432 in *; lia
           | change num_of_FCBs with 128; lia].
    + unfold save_FCB.
      replace (head_addr_of_data_block 2) with (head_addr_of_FCB num_of_FCBs)
        by reflexivity.
      apply (pread_pwrite_same _ _ 32), entry_after_length.
Qed.

Lemma write_in_directory_overrun_witness :
  exists r,
    write_in SignedChar last_slot_live_image A_TXT (file_of_size 100) = Returns r
    /\ printed r = Done
    /\ directory_writes (io r)
       = [(num_of_FCBs,
           entry_after (bytes_of_string "A       ") (bytes_of_string "TXT") 2
                       (num_records (file_of_size 100)))]
    /\ (forall i, 0 <= i < num_of_FCBs ->
                  dir_slot (image_after r) i = dir_slot last_slot_live_image i)
    /\ pread (image_after r) (convert_addr (head_addr_of_data_block 2)) 32
       = entry_after (bytes_of_string "A       ") (bytes_of_string "TXT") 2
                     (num_records (file_of_size 100)).
Proof.
  apply (write_in_directory_overrun SignedChar last_slot_live_image A_TXT (file_of_size 100)
           (bytes_of_string "A       ") (bytes_of_string "TXT") 2);
    vm_compute; try reflexivity; discriminate.
Defined.

(** ** Files inside one entry: the directory afterwards *)

(** A completed write of at most 255 records whose slot lies inside the
    directory: the one save of the entry buffer, after the records, puts
    the entry into its slot, changes no other slot, and the entry is the
    only live one with the name and extension. *)
Lemma write_in_one_entry (ck : char_signedness) (img : image)
      (cpm_filename src name extension : list byte) (llf llb : Z) (N : nat) :
  separate_name cpm_filename = Returns (name, extension) ->
  same_name_check ck name extension img
  = {| same_name := 0; last_living_FCB_num := llf; last_living_block_num := llb |} ->
  Z.of_nat N = num_records src ->
  (N <= 255)%nat ->
  llf + 1 + Z.of_nat N / 128 < num_of_FCBs ->
  N = 0%nat \/ RPD * (llb + 1) + Z.of_nat N <= RPD * num_of_data_blocks ->
  let slot := llf + 1 + Z.of_nat N / 128 in
  let entry := entry_after name extension llb (Z.of_nat N) in
  exists r,
    write_in ck img cpm_filename src = Returns r
    /\ printed r = Done
    /\ io r = map (record_event llb src) (seq 0 N) ++ [SaveFCB slot entry]
    /\ dir_slot (image_after r) slot = entry
    /\ (forall i, 0 <= i < num_of_FCBs -> i <> slot ->
                  dir_slot (image_after r) i = dir_slot img i)
    /\ entry_chain (image_after r) name extension = [entry].
Proof.
  intros Hsep Hscan HN Hmax Hslot Hcap slot entry.
  destruct (separate_name_lengths _ _ _ Hsep) as [Hn He].
  pose proof (last_living_FCB_num_range ck name extension img) as Hllf.
  pose proof (first_writable_block ck name extension img) as Hllb.
  assert (Hsame : same_name (same_name_check ck name extension img) = 0)
    by now rewrite Hscan.
  rewrite Hscan in Hllf, Hllb. cbn [last_living_FCB_num last_living_block_num] in Hllf, Hllb.
  change num_of_FCBs with 128 in *. change (RPD * num_of_data_blocks) with 2432 in *.
  unfold RPD in *.
  destruct (write_in_small ck img cpm_filename src name extension llf llb N Hsep Hscan HN)
    as (st & Hrun & Hinv).
  - lia.
  - unfold enough_capacity. change num_of_FCBs with 128.
    change (RPD * num_of_data_blocks) with 2432. unfold RPD.
    destruct Hcap as [->|Hcap]; [now left | zlia].
  - destruct Hinv as (_ & _ & _ & Hused & Hfcb & Hj).
    destruct (Nat.eqb_spec N 256) as [|_]; [lia|].
    rewrite app_nil_r in Hj.
    assert (Hs : llf + 1 + Z.rem (used_FCBs st) 2 = slot)
      by (unfold slot; rewrite Hused; zlia).
    assert (Hslot' : 0 <= slot < 128) by (unfold slot; zlia).
    rewrite Hs, Hfcb, Hj in Hrun. fold entry in Hrun.
    set (R := replay img (map (record_event llb src) (seq 0 N))).
    pose proof (write_in_image_replay _ _ _ _ _ Hrun) as Himg.
    cbn [image_after io] in Himg. unfold replay in Himg. rewrite fold_left_app in Himg.
    cbn [fold_left exec_event] in Himg.
    fold (replay img (map (record_event llb src) (seq 0 N))) in Himg. fold R in Himg.
    assert (HR : forall i, 0 <= i < 128 -> dir_slot R i = dir_slot img i).
    { intros i Hi. destruct Hcap as [->|Hcap]; [reflexivity|].
      unfold R. apply replay_records_slot;
        [lia | change (RPD * num_of_data_blocks) with 2432; unfold RPD; lia
         | change num_of_FCBs with 128; lia]. }
    assert (Hother : forall i, 0 <= i < 128 -> i <> slot ->
                               dir_slot (save_FCB R slot entry) i = dir_slot img i).
    { intros i Hi Hne.
      rewrite dir_slot_save_FCB_other by (change num_of_FCBs with 128; lia).
      now apply HR. }
    destruct (entry_after_header name extension llb (Z.of_nat N) Hn He) as [Hlive Hname].
    eexists. split; [exact Hrun|]. cbn [printed io]. rewrite Himg.
    split; [reflexivity|]. split; [reflexivity|].
    split; [apply dir_slot_save_FCB, entry_after_length|].
    split; [exact Hother|].
    apply entry_chain_single with (slot := slot).
    + change num_of_FCBs with 128. exact Hslot'.
    + apply dir_slot_save_FCB, entry_after_length.
    + exact Hlive.
    + exact Hname.
    + intros i Hi Hne. change num_of_FCBs with 128 in Hi.
      rewrite Hother by assumption.
      apply scan_no_name with (ck := ck); [exact Hsame | change num_of_FCBs with 128; lia].
Qed.

(** ** One byte more than 16384 *)

(** C1, as the code has it: a completed write of a 16385-byte file (129
    records) under a non-conflicting name, with the slot [llf + 2] inside
    the directory, saves the entry buffer exactly once, into that slot, and
    changes no other slot.  The one new directory entry carries the name
    and extension, extent byte 1, record count 1 and the nine blocks
    llb+1 .. llb+9: with 2048-byte blocks an entry spans 256 records, and
    the extent byte counts 16 KiB units inside it. *)
Theorem write_in_16385_bytes (ck : char_signedness) (img : image)
        (cpm_filename src name extension : list byte) (llf llb : Z) :
  separate_name cpm_filename = Returns (name, extension) ->
  same_name_check ck name extension img
  = {| same_name := 0; last_living_FCB_num := llf; last_living_block_num := llb |} ->
  Z.of_nat (length src) = 16385 ->
  llf + 2 < num_of_FCBs ->
  RPD * (llb + 1) + 128 < RPD * num_of_data_blocks ->
  let entry := directory_entry name extension x01 x01 (block_numbers llb 9) in
  exists r,
    write_in ck img cpm_filename src = Returns r
    /\ printed r = Done
    /\ io r = map (record_event llb src) (seq 0 129) ++ [SaveFCB (llf + 2) entry]
    /\ directory_writes (io r) = [(llf + 2, entry)]
    /\ entry_name entry = name
    /\ entry_extension entry = extension
    /\ extent_index entry = x01
    /\ record_count entry = x01
    /\ allocation_map entry = block_numbers llb 9 ++ repeat x00 7
    /\ 0 <= llf + 2 < num_of_FCBs
    /\ dir_slot (image_after r) (llf + 2) = entry
    /\ (forall i, 0 <= i < num_of_FCBs -> i <> llf + 2 ->
                  dir_slot (image_after r) i = dir_slot img i)
    /\ entry_chain (image_after r) name extension = [entry].
Proof.
  intros Hsep Hscan Hlen Hllf Hllb entry.
  destruct (separate_name_lengths _ _ _ Hsep) as [Hn He].
  pose proof (last_living_FCB_num_range ck name extension img) as Hrange.
  rewrite Hscan in Hrange. cbn [last_living_FCB_num] in Hrange.
  destruct (write_in_one_entry ck img cpm_filename src name extension llf llb 129 Hsep Hscan)
    as (r & Hrun & Hdone & Hio & Hslot & Hother & Hchain).
  - unfold num_records. rewrite Hlen. reflexivity.
  - lia.
  - change (Z.of_nat 129 / 128) with 1. lia.
  - right. change (Z.of_nat 129) with 129. lia.
  - change (Z.of_nat 129 / 128) with 1 in *. change (Z.of_nat 129) with 129 in *.
    replace (llf + 1 + 1) with (llf + 2) in * by lia.
    rewrite entry_after_129 in * by assumption. fold entry in Hio, Hslot, Hchain.
    destruct (directory_entry_fields name extension x01 x01 (block_numbers llb 9) Hn He)
      as (_ & _ & F1 & F2 & F3 & F4); [cbn; lia|].
    assert (Hmap : allocation_map entry = block_numbers llb 9 ++ repeat x00 7)
      by (unfold entry; now rewrite allocation_map_entry by (auto; lia)).
    exists r. rewrite Hio, directory_writes_app, directory_writes_records.
    repeat split; try assumption; try reflexivity; lia.
Qed.

Lemma write_in_16385_bytes_witness :
  exists r,
    write_in SignedChar blank_image A_TXT (file_of_size 16385) = Returns r
    /\ printed r = Done
    /\ directory_writes (io r)
       = [(1, directory_entry (bytes_of_string "A       ") (bytes_of_string "TXT")
                              x01 x01 (block_numbers 1 9))].
Proof.
  destruct (write_in_16385_bytes SignedChar blank_image A_TXT (file_of_size 16385)
              (bytes_of_string "A       ") (bytes_of_string "TXT") (-1) 1)
    as (r & H1 & H2 & _ & H4 & _).
  - vm_compute. reflexivity.
  - vm_compute. reflexivity.
  - vm_compute. reflexivity.
  - vm_compute. reflexivity.
  - vm_compute. reflexivity.
  - exists r. repeat split; assumption.
Defined.

(** ** Exactly 16384 bytes *)

(** C6, as the code has it: a completed write of a 16384-byte file (128
    records) under a non-conflicting name, with the slot [llf + 2] inside
    the directory, leaves exactly one new directory entry, in that slot,
    and changes no other slot; its record count byte is 80h and its
    allocation map holds the 8 nonzero block numbers llb+1 .. llb+8
    followed by 8 zeros (a data block is 2048 bytes, 16 records). *)
Theorem write_in_16384_bytes (ck : char_signedness) (img : image)
        (cpm_filename src name extension : list byte) (llf llb : Z) :
  separate_name cpm_filename = Returns (name, extension) ->
  same_name_check ck name extension img
  = {| same_name := 0; last_living_FCB_num := llf; last_living_block_num := llb |} ->
  Z.of_nat (length src) = 16384 ->
  llf + 2 < num_of_FCBs ->
  RPD * (llb + 1) + 127 < RPD * num_of_data_blocks ->
  let entry := directory_entry name extension x00 x80 (block_numbers llb 8) in
  exists r,
    write_in ck img cpm_filename src = Returns r
    /\ printed r = Done
    /\ io r = map (record_event llb src) (seq 0 128) ++ [SaveFCB (llf + 2) entry]
    /\ directory_writes (io r) = [(llf + 2, entry)]
    /\ entry_name entry = name
    /\ entry_extension entry = extension
    /\ extent_index entry = x00
    /\ record_count entry = x80
    /\ allocation_map entry = block_numbers llb 8 ++ repeat x00 8
    /\ Forall (fun b => b <> x00) (block_numbers llb 8)
    /\ 0 <= llf + 2 < num_of_FCBs
    /\ dir_slot (image_after r) (llf + 2) = entry
    /\ (forall i, 0 <= i < num_of_FCBs -> i <> llf + 2 ->
                  dir_slot (image_after r) i = dir_slot img i)
    /\ entry_chain (image_after r) name extension = [entry].
Proof.
  intros Hsep Hscan Hlen Hllf Hllb entry.
  destruct (separate_name_lengths _ _ _ Hsep) as [Hn He].
  pose proof (last_living_FCB_num_range ck name extension img) as Hrange.
  pose proof (first_writable_block ck name extension img) as Hfirst.
  rewrite Hscan in Hrange, Hfirst.
  cbn [last_living_FCB_num last_living_block_num] in Hrange, Hfirst.
  destruct (write_in_one_entry ck img cpm_filename src name extension llf llb 128 Hsep Hscan)
    as (r & Hrun & Hdone & Hio & Hslot & Hother & Hchain).
  - unfold num_records. rewrite Hlen. reflexivity.
  - lia.
  - change (Z.of_nat 128 / 128) with 1. lia.
  - right. change (Z.of_nat 128) with 128. lia.
  - change (Z.of_nat 128 / 128) with 1 in *. change (Z.of_nat 128) with 128 in *.
    replace (llf + 1 + 1) with (llf + 2) in * by lia.
    rewrite entry_after_128 in * by assumption. fold entry in Hio, Hslot, Hchain.
    destruct (directory_entry_fields name extension x00 x80 (block_numbers llb 8) Hn He)
      as (_ & _ & F1 & F2 & F3 & F4); [cbn; lia|].
    assert (Hmap : allocation_map entry = block_numbers llb 8 ++ repeat x00 8)
      by (unfold entry; now rewrite allocation_map_entry by (auto; lia)).
    assert (Hnz : Forall (fun b => b <> x00) (block_numbers llb 8)).
    { apply block_numbers_nonzero; [lia|].
      unfold RPD, num_of_data_blocks, BPS, SPT, TRACKS, DATA_BLOCK_SIZE in Hllb.
      change (Z.of_nat 8) with 8. zlia. }
    exists r. rewrite Hio, directory_writes_app, directory_writes_records.
    repeat split; try assumption; try reflexivity; lia.
Qed.

Lemma write_in_16384_bytes_witness :
  exists r,
    write_in SignedChar blank_image A_TXT (file_of_size 16384) = Returns r
    /\ printed r = Done
    /\ directory_writes (io r)
       = [(1, directory_entry (bytes_of_string "A       ") (bytes_of_string "TXT")
                              x00 x80 (block_numbers 1 8))].
Proof.
  destruct (write_in_16384_bytes SignedChar blank_image A_TXT (file_of_size 16384)
              (bytes_of_string "A       ") (bytes_of_string "TXT") (-1) 1)
    as (r & H1 & H2 & _ & H4 & _).
  - vm_compute. reflexivity.
  - vm_compute. reflexivity.
  - vm_compute. reflexivity.
  - vm_compute. reflexivity.
  - vm_compute. reflexivity.
  - exists r. repeat split; assumption.
Defined.

(** ** The empty file *)




(** ** The first two entries of a file *)

Lemma second_entry_after_256 (name extension : list byte) (llb : Z) :
  second_entry_after name extension llb 256 = init_FCB_buf name extension.
Proof. reflexivity. Qed.

(** The three stores of one turn of the loop, after the entry buffer was
    saved and initialised again. *)
Lemma second_entry_step (name extension : list byte) (llb k : Z) :
  256 <= k < 511 ->
  array_set
    (array_set
       (array_set (second_entry_after name extension llb k) 12 (int_to_char (k / 128)))
       15 (int_to_char (if Z.rem (k + 1) 128 =? 0 then 128 else Z.rem (k + 1) 128)))
    (16 + Z.rem (16 + (Z.quot (k + 1) RPD + (if Z.rem (k + 1) RPD =? 0 then 0 else 1)) - 1) 16)
    (int_to_char (llb + (Z.quot (k + 1) RPD + (if Z.rem (k + 1) RPD =? 0 then 0 else 1))))
  = second_entry_after name extension llb (k + 1).
Proof.
  intros Hk.
  assert (Hwb : Z.quot (k + 1) RPD + (if Z.rem (k + 1) RPD =? 0 then 0 else 1)
                = 16 + (k + 1 - 256 + 15) / 16).
  { unfold RPD. destruct (Z.eqb_spec (Z.rem (k + 1) 16) 0); zlia. }
  rewrite Hwb.
  assert (Hoff : Z.rem (16 + (16 + (k + 1 - 256 + 15) / 16) - 1) 16
                 = (k + 1 - 256 + 15) / 16 - 1) by zlia.
  rewrite Hoff.
  assert (Hrem : Z.rem (k + 1) 128 = (k + 1) mod 128) by zlia.
  rewrite Hrem.
  assert (F1 : (k - 256 + 15) / 16 <= (k + 1 - 256 + 15) / 16 <= (k - 256 + 15) / 16 + 1)
    by zlia.
  assert (F2 : 1 <= (k + 1 - 256 + 15) / 16 <= 16) by zlia.
  unfold second_entry_after.
  rewrite !array_set_map_Zrange by (cbn [Z.of_nat Pos.of_succ_nat Pos.succ]; lia).
  apply map_ext_in. intros j Hj. apply In_Zrange in Hj.
  unfold second_entry_fn. replace (k + 1 - 1) with k by lia.
  set (w := (k - 256 + 15) / 16) in *. set (w' := (k + 1 - 256 + 15) / 16) in *.
  destruct (Z.eqb_spec j (16 + (w' - 1))), (Z.eqb_spec j 15), (Z.eqb_spec j 12),
    (Z.leb_spec 16 j), (Z.ltb_spec j (16 + w)), (Z.ltb_spec j (16 + w')),
    (Z.eqb_spec (k + 1) 256);
    cbn [andb]; try lia; try reflexivity; f_equal; lia.
Qed.

Lemma two_entries_inv_start (name extension : list byte) (llf llb : Z) (src : list byte)
      (img : image) :
  two_entries_inv name extension llf llb src 0 (start_state name extension img).
Proof. unfold two_entries_inv, start_state. cbn. repeat split. Qed.

Lemma two_entries_inv_step (name extension : list byte) (llf llb : Z) (src : list byte)
      (k : nat) (st : write_state) :
  (k < 511)%nat ->
  two_entries_inv name extension llf llb src k st ->
  two_entries_inv name extension llf llb src (S k)
                  (loop_body name extension llf llb (set_record_buff st (record_at src k))).
Proof.
  intros Hk (Hbuf & Hwr & Hused & Hfcb & Hj).
  assert (Hused' : (if Z.rem (Z.of_nat k + 1) 128 =? 0
                    then Z.of_nat k / 128 + 1 else Z.of_nat k / 128)
                   = Z.of_nat (S k) / 128).
  { destruct (Z.eqb_spec (Z.rem (Z.of_nat k + 1) 128) 0); zlia. }
  unfold two_entries_inv, loop_body, set_record_buff.
  cbn [used_FCBs written_records FCB_buff record_buff journal].
  rewrite Hwr, Hused, Hfcb, Hj, Hused'.
  rewrite <- Hwr at 1. fold (record_event llb src k). rewrite Hwr.
  unfold BPS.
  destruct (Z.ltb_spec (Z.of_nat k) 256) as [Hlt|Hge].
  - rewrite entry_step by lia.
    destruct (Z.leb_spec 256 (Z.of_nat k)) as [|_]; [lia|].
    rewrite app_nil_r, Nat.min_l by lia.
    assert (Hseq : map (record_event llb src) (seq 0 k) ++ [record_event llb src k]
                   = map (record_event llb src) (seq 0 (S k)))
      by now rewrite seq_S, map_app.
    rewrite Hseq.
    replace (Z.of_nat k + 1) with (Z.of_nat (S k)) by lia.
    destruct (Z.eqb_spec (Z.of_nat (S k)) 256) as [E|E].
    + assert (k = 255)%nat as -> by lia.
      cbn [used_FCBs written_records FCB_buff record_buff journal].
      change (Z.of_nat 256) with 256.
      change (Z.rem (256 / 128) 2) with 0. rewrite Z.add_0_r.
      repeat split; reflexivity.
    + cbn [used_FCBs written_records FCB_buff record_buff journal].
      destruct (Z.ltb_spec (Z.of_nat (S k)) 256) as [_|]; [|lia].
      destruct (Z.leb_spec 256 (Z.of_nat (S k))) as [|_]; [lia|].
      rewrite app_nil_r, Nat.min_l by lia.
      repeat split; reflexivity.
  - rewrite second_entry_step by lia.
    destruct (Z.leb_spec 256 (Z.of_nat k)) as [_|]; [|lia].
    destruct (Z.eqb_spec (Z.of_nat k + 1) 256) as [|_]; [lia|].
    cbn [used_FCBs written_records FCB_buff record_buff journal].
    replace (Z.of_nat k + 1) with (Z.of_nat (S k)) by lia.
    destruct (Z.ltb_spec (Z.of_nat (S k)) 256) as [|_]; [lia|].
    destruct (Z.leb_spec 256 (Z.of_nat (S k))) as [_|]; [|lia].
    rewrite !Nat.min_r by lia.
    assert (Hseq : map (record_event llb src) (seq 256 (S k - 256))
                   = map (record_event llb src) (seq 256 (k - 256)) ++ [record_event llb src k]).
    { replace (S k - 256)%nat with (S (k - 256)) by lia.
      rewrite seq_S, map_app. replace (256 + (k - 256))%nat with k by lia. reflexivity. }
    rewrite Hseq, <- app_assoc, <- app_comm_cons.
    repeat split; reflexivity.
Qed.

(** A completed write of fewer than 512 records, in closed form up to the
    slot of the save after the loop. *)
Lemma write_in_two_entries (ck : char_signedness) (img : image)
      (cpm_filename src name extension : list byte) (llf llb : Z) (N : nat) :
  separate_name cpm_filename = Returns (name, extension) ->
  same_name_check ck name extension img
  = {| same_name := 0; last_living_FCB_num := llf; last_living_block_num := llb |} ->
  Z.of_nat N = num_records src ->
  (N <= 511)%nat ->
  enough_capacity llf llb (Z.of_nat N) ->
  exists st,
    write_in ck img cpm_filename src
    = Returns
        {| printed := Done;
           image_after := save_FCB (wfp st) (llf + 1 + Z.rem (used_FCBs st) 2) (FCB_buff st);
           io := journal st ++ [SaveFCB (llf + 1 + Z.rem (used_FCBs st) 2) (FCB_buff st)] |}
    /\ two_entries_inv name extension llf llb src N st.
Proof.
  intros Hsep Hscan HN Hle Hcap.
  destruct (write_loop_rule name extension llf llb src
              (two_entries_inv name extension llf llb src) N HN)
    with (fuel := S (length src)) (k := 0%nat) (st := start_state name extension img)
    as (st & Hrun & Hinv).
  - intros k st (Hb & Hw & Hu & _). auto.
  - intros k st Hk. apply two_entries_inv_step. lia.
  - exact Hcap.
  - lia.
  - apply two_entries_inv_start.
  - change (128 * 0)%nat with 0%nat. cbn [skipn]. lia.
  - exists st. split; [|exact Hinv].
    unfold write_in. rewrite Hsep, Hscan.
    cbn [same_name last_living_FCB_num last_living_block_num Z.eqb negb].
    change (128 * 0)%nat with 0%nat in Hrun. cbn [skipn] in Hrun.
    now rewrite Hrun.
Qed.

Lemma saved_after_records (llb : Z) (src : list byte) (m a n : nat) (rest : list io_event) :
  (1 <= n <= m)%nat ->
  saved_after_record n (map (record_event llb src) (seq a m) ++ rest)
  = if (n =? m)%nat
    then match rest with SaveFCB _ _ :: _ => true | _ => false end
    else false.
Proof.
  revert a n. induction m as [|m IH]; intros a n Hn; [lia|].
  cbn [seq map app record_event saved_after_record].
  destruct n as [|[|n]]; [lia | |].
  - destruct m as [|m]; [reflexivity|]. reflexivity.
  - rewrite IH by lia. reflexivity.
Qed.

(** C2, as the code has it, for the first entry of a file.  In a completed
    write of fewer than 512 records nothing is saved to the directory when
    128 records have accumulated: all the events up to record 256 are
    record writes.  When exactly 256 records have accumulated (a full
    entry: 16 blocks of 16 records) the entry buffer, with record count 80h
    and its 16 block numbers, is saved to slot [llf + 1], inside the
    directory, and initialised again: the entry saved after the loop holds
    what the records after the 256th put into a fresh buffer.  The slot of
    the save after the loop is left open. *)
Theorem write_in_save_points (ck : char_signedness) (img : image)
        (cpm_filename src name extension : list byte) (llf llb : Z) :
  separate_name cpm_filename = Returns (name, extension) ->
  same_name_check ck name extension img
  = {| same_name := 0; last_living_FCB_num := llf; last_living_block_num := llb |} ->
  num_records src < 512 ->
  enough_capacity llf llb (num_records src) ->
  let n := num_records src in
  let full := directory_entry name extension x01 x80 (block_numbers llb 16) in
  exists r slot,
    write_in ck img cpm_filename src = Returns r
    /\ printed r = Done
    /\ (n < 256 ->
        io r = map (record_event llb src) (seq 0 (Z.to_nat n))
               ++ [SaveFCB slot (entry_after name extension llb n)])
    /\ (256 <= n ->
        io r = map (record_event llb src) (seq 0 256)
               ++ SaveFCB (llf + 1) full
                  :: map (record_event llb src) (seq 256 (Z.to_nat n - 256))
                  ++ [SaveFCB slot (second_entry_after name extension llb n)]
        /\ 0 <= llf + 1 < num_of_FCBs
        /\ saved_after_record 256 (io r) = true)
    /\ (128 < n -> saved_after_record 128 (io r) = false)
    /\ record_count full = x80
    /\ allocation_map full = block_numbers llb 16
    /\ second_entry_after name extension llb 256 = init_FCB_buf name extension.
Proof.
  intros Hsep Hscan Hmax Hcap n full.
  destruct (separate_name_lengths _ _ _ Hsep) as [Hn He].
  pose proof (last_living_FCB_num_range ck name extension img) as Hllf.
  rewrite Hscan in Hllf. cbn [last_living_FCB_num] in Hllf.
  assert (HN : Z.of_nat (Z.to_nat n) = num_records src) by (unfold n, num_records; zlia).
  assert (Hn0 : 0 <= n) by (unfold n, num_records; zlia).
  destruct (write_in_two_entries ck img cpm_filename src name extension llf llb (Z.to_nat n)
              Hsep Hscan HN) as (st & Hrun & Hinv).
  - lia.
  - now rewrite HN.
  - destruct Hinv as (_ & _ & _ & Hfcb & Hj). rewrite HN in Hfcb, Hj. fold n in Hfcb, Hj.
    rewrite Hfcb, Hj in Hrun.
    rewrite entry_after_256 in Hrun by assumption. fold full in Hrun.
    destruct (directory_entry_fields name extension x01 x80 (block_numbers llb 16) Hn He)
      as (_ & _ & _ & _ & _ & F4); [cbn; lia|].
    assert (Hmap : allocation_map full = block_numbers llb 16).
    { unfold full. rewrite allocation_map_entry by (auto; cbn; lia).
      cbn [repeat]. apply app_nil_r. }
    eexists. exists (llf + 1 + Z.rem (used_FCBs st) 2).
    split; [exact Hrun|]. cbn [printed io].
    split; [reflexivity|].
    destruct (Z.ltb_spec n 256) as [Hlt|Hge].
    + destruct (Z.leb_spec 256 n) as [|_]; [lia|].
      rewrite app_nil_r, Nat.min_l by lia.
      split; [reflexivity|]. split; [lia|].
      split; [|repeat split; assumption].
      intros H128. rewrite saved_after_records by lia.
      destruct (Nat.eqb_spec 128 (Z.to_nat n)); [lia | reflexivity].
    + destruct (Z.leb_spec 256 n) as [_|]; [|lia].
      rewrite Nat.min_r by lia.
      split; [lia|].
      split; [|split; [|repeat split; assumption]].
      * intros _. rewrite <- app_assoc, <- app_comm_cons.
        split; [reflexivity|]. split; [|].
        -- change num_of_FCBs with 128 in *. unfold enough_capacity in Hcap.
           change num_of_FCBs with 128 in Hcap. fold n in Hcap. zlia.
        -- rewrite saved_after_records by lia. reflexivity.
      * intros _. rewrite <- app_assoc. rewrite saved_after_records by lia. reflexivity.
Qed.

Lemma write_in_save_points_witness :
  exists r slot,
    write_in SignedChar blank_image A_TXT (file_of_size 32769) = Returns r
    /\ printed r = Done
    /\ io r = map (record_event 1 (file_of_size 32769)) (seq 0 256)
              ++ SaveFCB 0 (directory_entry (bytes_of_string "A       ")
                                            (bytes_of_string "TXT") x01 x80
                                            (block_numbers 1 16))
                 :: map (record_event 1 (file_of_size 32769)) (seq 256 1)
                 ++ [SaveFCB slot (second_entry_after (bytes_of_string "A       ")
                                                      (bytes_of_string "TXT") 1 257)].
Proof.
  destruct (write_in_save_points SignedChar blank_image A_TXT (file_of_size 32769)
              (bytes_of_string "A       ") (bytes_of_string "TXT") (-1) 1)
    as (r & slot & H1 & H2 & _ & H4 & _).
  - vm_compute. reflexivity.
  - vm_compute. reflexivity.
  - vm_compute. reflexivity.
  - right. vm_compute. split; reflexivity.
  - exists r, slot. split; [exact H1|]. split; [exact H2|].
    apply H4. vm_compute. discriminate.
Defined.
